(** * The secrets editor slice of onyxia-web

    A shallow embedding of the [secretsEditor] state slice (its four
    reducers) and of the two thunks [openSecret] and
    [editCurrentlyShownSecret], together with the properties of the
    key/value bookkeeping they implement.

    Modelling conventions.
    - A JavaScript object is the ordered list of its own enumerable
      properties.  The order is the one [Object.keys], spread and
      [forEach] observe: array-index keys first, in ascending numeric
      order, then the remaining string keys in insertion order.
    - The prototype of every record is [Object.prototype].  [Object.keys],
      spread, [delete] and the definition of a property (in a spread or
      an object literal) act on own properties.  The operator [in] and a
      property read also see the names inherited from
      [Object.prototype].  An assignment creates or overwrites an own
      property, except under ["__proto__"]: when the record has no own
      property of that name the assignment reaches the inherited setter
      and creates none.  The model keeps the own properties; it does not
      follow a prototype that such an assignment replaces (when the
      value assigned is an object or [null]).
    - The case reducers mutate the draft that [createSlice] hands
      them; the mutations are modelled as the language defines them on
      the object itself, and a reducer returns the state they leave.
    - A number is a double; the model holds the integers among them and
      rounds the result of [version++] as the double does.
    - A failed [assert] and a [TypeError] are the [Thrown] outcome of an
      exception monad; calling an action creator the slice does not
      make is such a [TypeError].
    - An [async] thunk is a finite interaction: a tree of dispatches,
      store reads and awaited calls to the secrets manager client. *)

From Stdlib Require Import Ascii String.
From stdpp Require Import base decidable option list strings numbers gmap sorting.

Set Warnings "-register-all,-clear-no-such-hyp".

Open Scope string_scope.
Open Scope list_scope.

(** ** JavaScript values held by a secret *)

(** Modelled from the spec: the type [Secret.Value] of
    [core/ports/SecretsManagerClient] is not part of the source at hand;
    a secret is a key-value record exchanged with the store.  Its values
    are taken to be the JSON values, plus the two kinds of value a
    property read can give besides:
    [undefined] for a name the object does not know, and for a name
    [n] inherited from [Object.prototype] the value [Object.prototype[n]]
    (a built-in function; the prototype itself for ["__proto__"]).
    Numbers are integers: the code does no arithmetic on them but
    [version++]. *)
Inductive Value : Type :=
| VUndefined
| VNull
| VBool (b : bool)
| VNumber (n : Z)
| VString (s : string)
| VArray (items : list Value)
| VObject (fields : list (string * Value))
| VInherited (name : string).

(** [Secret = Record<string, Secret.Value>], in property order. *)
Abbreviation Secret := (list (string * Value)).

Module JsObject.

(** *** Array-index keys *)

Definition digit_of (c : ascii) : option N :=
  let n := N_of_ascii c in
  if ((48 <=? n) && (n <=? 57))%N then Some (n - 48)%N else None.

Fixpoint digits_value (acc : N) (s : string) : option N :=
  match s with
  | EmptyString => Some acc
  | String c s' =>
      match digit_of c with
      | Some d => digits_value (acc * 10 + d)%N s'
      | None => None
      end
  end.

(** A property key is an array index when it is the canonical decimal
    spelling of an integer in [0, 2^32 - 2]. *)
Definition array_index (k : string) : option N :=
  match k with
  | EmptyString => None
  | String c rest =>
      if bool_decide (c = "0"%char) && negb (bool_decide (rest = ""))
      then None
      else match digits_value 0 k with
           | Some n => if (n <? 2 ^ 32 - 1)%N then Some n else None
           | None => None
           end
  end.

(** The enumeration order of own property keys: array indices by
    value, before every other key; other keys are not ordered among
    themselves (they stay in insertion order). *)
Definition key_leb (k1 k2 : string) : bool :=
  match array_index k1, array_index k2 with
  | Some a, Some b => (a <=? b)%N
  | Some _, None => true
  | None, Some _ => false
  | None, None => true
  end.

Definition key_le (k1 k2 : string) : Prop := key_leb k1 k2 = true.

#[global] Instance key_le_dec k1 k2 : Decision (key_le k1 k2).
Proof. unfold key_le. apply _. Defined.

(** *** Own properties *)

Definition obj_keys (o : Secret) : list string := o.*1.

Fixpoint obj_lookup (k : string) (o : Secret) : option Value :=
  match o with
  | [] => None
  | (k', v) :: rest => if decide (k' = k) then Some v else obj_lookup k rest
  end.

(** [Object.prototype.hasOwnProperty.call(o, k)] *)
Definition obj_has (k : string) (o : Secret) : bool :=
  bool_decide (is_Some (obj_lookup k o)).

(** The property names of [Object.prototype], which every record
    inherits. *)
Definition object_prototype_names : list string :=
  ["constructor"; "__defineGetter__"; "__defineSetter__"; "hasOwnProperty";
   "__lookupGetter__"; "__lookupSetter__"; "isPrototypeOf";
   "propertyIsEnumerable"; "toString"; "valueOf"; "__proto__";
   "toLocaleString"].

Definition inherited (k : string) : bool :=
  bool_decide (k ∈ object_prototype_names).

(** [k in o]: an own property or an inherited one. *)
Definition obj_in (k : string) (o : Secret) : bool :=
  obj_has k o || inherited k.

(** [o[k]]: the own property, else the inherited one, else
    [undefined]. *)
Definition obj_get (k : string) (o : Secret) : Value :=
  match obj_lookup k o with
  | Some v => v
  | None => if inherited k then VInherited k else VUndefined
  end.

(** [delete o[k]] *)
Definition obj_delete (k : string) (o : Secret) : Secret :=
  filter (λ p, p.1 ≠ k) o.

(** Assignment to an existing property keeps its place. *)
Fixpoint obj_overwrite (k : string) (v : Value) (o : Secret) : Secret :=
  match o with
  | [] => []
  | (k', v') :: rest =>
      if decide (k' = k) then (k', v) :: rest
      else (k', v') :: obj_overwrite k v rest
  end.

(** A new property is enumerated after the properties that precede it
    in key order: an array index among the indices, any other key
    last. *)
Fixpoint obj_insert (k : string) (v : Value) (o : Secret) : Secret :=
  match o with
  | [] => [(k, v)]
  | (k', v') :: rest =>
      if key_leb k' k then (k', v') :: obj_insert k v rest
      else (k, v) :: (k', v') :: rest
  end.

(** The definition of the own property [k], as a spread and an object
    literal [{ [k]: v }] do it: the property is overwritten where it
    is, or created. *)
Definition obj_set (k : string) (v : Value) (o : Secret) : Secret :=
  if obj_has k o then obj_overwrite k v o else obj_insert k v o.

(** The assignment [o[k] = v].  An own property is overwritten where
    it is.  Otherwise the name is looked up along the prototype: for
    ["__proto__"] the setter of [Object.prototype] is called, and the
    record gets no property; every other name, inherited from
    [Object.prototype] or not, becomes a new own property. *)
Definition obj_put (k : string) (v : Value) (o : Secret) : Secret :=
  if obj_has k o then obj_overwrite k v o
  else if bool_decide (k = "__proto__") then o
  else obj_insert k v o.

(** [{ ...o }]: a fresh object receiving the properties of [o] in
    enumeration order. *)
Definition obj_spread (o : Secret) : Secret :=
  foldl (λ acc p, obj_set p.1 p.2 acc) [] o.

(** [ks.forEach(k => delete o[k])] *)
Definition obj_delete_all (ks : list string) (o : Secret) : Secret :=
  foldl (λ acc k, obj_delete k acc) o ks.

(** The shape every object has: no key twice, keys in enumeration
    order. *)
Definition js_ordered (o : Secret) : Prop :=
  StronglySorted key_le (obj_keys o).

Definition wf_obj (o : Secret) : Prop :=
  NoDup (obj_keys o) ∧ js_ordered o.

#[global] Instance js_ordered_dec o : Decision (js_ordered o).
Proof. unfold js_ordered. apply _. Defined.

#[global] Instance wf_obj_dec o : Decision (wf_obj o).
Proof. unfold wf_obj. apply _. Defined.

End JsObject.
Import JsObject.

(** ** Numbers *)

Module JsNumber.

(** The double nearest to the integer [m], ties going to the even
    significand: every integer up to [2^53] in magnitude is a double;
    beyond, a double has 53 significant bits.  (For [m] within the
    range of the finite doubles, below [2^1024] in magnitude.) *)
Definition to_double (m : Z) : Z :=
  if (Z.abs m <? 2 ^ 53)%Z then m
  else
    let e := (Z.log2 (Z.abs m) - 52)%Z in
    let q := (Z.abs m / 2 ^ e)%Z in
    let r := (Z.abs m mod 2 ^ e)%Z in
    let half := (2 ^ (e - 1))%Z in
    let q' := if (r <? half)%Z then q
              else if (half <? r)%Z then (q + 1)%Z
              else if Z.even q then q else (q + 1)%Z in
    (Z.sgn m * (q' * 2 ^ e))%Z.

(** [n++] on a number holding the integer [n]. *)
Definition increment (n : Z) : Z := to_double (n + 1).

End JsNumber.

(** ** Exceptions *)

Inductive Exc (A : Type) : Type :=
| Returned (a : A)
| Thrown.
Arguments Returned {A} a.
Arguments Thrown {A}.

#[global] Instance Exc_ret : MRet Exc := λ A a, Returned a.
#[global] Instance Exc_bind : MBind Exc := λ A B f m,
  match m with
  | Returned a => f a
  | Thrown => Thrown
  end.

(** [assert(b)] of [tsafe/assert] *)
Definition assert (b : bool) : Exc unit :=
  if b then Returned tt else Thrown.

(** [try { body } catch { handler }] *)
Definition try_catch {A} (body : Exc A) (handler : A) : A :=
  match body with
  | Returned a => a
  | Thrown => handler
  end.

(** ** The state of the slice *)

(** Modelled from the spec: the type [SecretWithMetadata] of
    [core/ports/SecretsManagerClient] is not part of the source at
    hand; a secret is a key-value record carrying version-stamped
    metadata.  The slice reads and writes [created_time] and [version];
    the other fields of the metadata are carried along unchanged.
    [version] is a number holding an integer. *)
Record Metadata : Type := {
  created_time : string;
  version : Z;
  other_metadata : Secret;
}.

Record SecretWithMetadata : Type := {
  secret : Secret;
  metadata : Metadata;
}.

Record SecretsEditorState : Type := {
  dirPath : string;
  basename : string;
  (** undefined when is being opened *)
  secretWithMetadata : option SecretWithMetadata;
  hiddenKeys : list string;
  isBeingUpdated : bool;
}.

(** [SecretsEditorState | null] *)
Abbreviation State := (option SecretsEditorState).

Inductive HideOrReveal : Type := hide | reveal.

Inductive EditSecretParams : Type :=
| AddOrOverwriteKeyValue (key value : string)
| RenameKey (key newKey : string)
| RenameKeyAndUpdateValue (key newKey newValue : string)
| RemoveKeyValue (key : string)
| HideOrRevealKey (type : HideOrReveal) (key : string).

Definition extraKey : string := ".onyxia".

(** ** Reducers *)

Module Reducers.

Definition openStarted (dirPath basename : string) (_state : State)
  : Exc State :=
  Returned (Some {| dirPath := dirPath;
                    basename := basename;
                    secretWithMetadata := None;
                    hiddenKeys := [];
                    isBeingUpdated := true |}).

Definition openCompleted (swm : SecretWithMetadata)
    (hiddenKeys : list string) (state : State) : Exc State :=
  match state with
  | None => Thrown
  | Some s =>
      Returned (Some {| dirPath := s.(dirPath);
                        basename := s.(basename);
                        secretWithMetadata := Some swm;
                        hiddenKeys := hiddenKeys;
                        isBeingUpdated := false |})
  end.

(** The local function [renameKey] of [editSecretStarted]: the record
    is emptied and refilled from a clone by assignments, the entry of
    [key] being assigned under [newKey]. *)
Definition renameKey (key newKey : string) (secret : Secret) : Secret :=
  let secretClone := obj_spread secret in
  let secret := obj_delete_all (obj_keys secretClone) secret in
  foldl (λ secret key_i,
           obj_put (if decide (key_i = key) then newKey else key_i)
                   (obj_get key_i secretClone) secret)
        secret (obj_keys secretClone).

(** The [switch] of [editSecretStarted], on the secret and the hidden
    keys of the state. *)
Definition applyEdit (payload : EditSecretParams) (secret : Secret)
    (hiddenKeys : list string) : Secret * list string :=
  match payload with
  | AddOrOverwriteKeyValue key value =>
      (obj_put key (VString value) secret, hiddenKeys)
  | RemoveKeyValue key =>
      (obj_delete key secret, hiddenKeys)
  | RenameKeyAndUpdateValue key newKey newValue =>
      (obj_put newKey (VString newValue) (renameKey key newKey secret),
       hiddenKeys)
  | RenameKey key newKey =>
      (renameKey key newKey secret, hiddenKeys)
  | HideOrRevealKey hide key =>
      (secret, hiddenKeys ++ [key])
  | HideOrRevealKey reveal key =>
      (secret, filter (λ key_i, key_i ≠ key) hiddenKeys)
  end.

Definition editSecretStarted (payload : EditSecretParams) (state : State)
  : Exc State :=
  match state with
  | None => Thrown
  | Some s =>
      match s.(secretWithMetadata) with
      | None => Thrown
      | Some swm =>
          let '(secret', hiddenKeys') :=
            applyEdit payload swm.(secret) s.(hiddenKeys) in
          Returned (Some {| dirPath := s.(dirPath);
                            basename := s.(basename);
                            secretWithMetadata :=
                              Some {| secret := secret';
                                      metadata := swm.(metadata) |};
                            hiddenKeys := hiddenKeys';
                            isBeingUpdated := true |})
      end
  end.

(** [now] is the value of [new Date().toISOString()]; [version++] is
    the increment of a number. *)
Definition editSecretCompleted (now : string) (state : State) : Exc State :=
  match state with
  | None => Thrown
  | Some s =>
      match s.(secretWithMetadata) with
      | None => Thrown
      | Some swm =>
          let m := swm.(metadata) in
          Returned (Some {| dirPath := s.(dirPath);
                            basename := s.(basename);
                            secretWithMetadata :=
                              Some {| secret := swm.(secret);
                                      metadata :=
                                        {| created_time := now;
                                           version :=
                                             JsNumber.increment m.(version);
                                           other_metadata :=
                                             m.(other_metadata) |} |};
                            hiddenKeys := s.(hiddenKeys);
                            isBeingUpdated := false |})
      end
  end.

End Reducers.

(** ** Actions and the store *)

(** The actions of the slice: [createSlice] makes one action creator
    for each of the four case reducers, and no other.  The thunks also
    call [actions.errorOcurred] and
    [actions.navigationTowardSecretSuccess]; [actions] has no such
    member, see [call_of_undefined] below. *)
Inductive Action : Type :=
| openStarted (dirPath basename : string)
| openCompleted (swm : SecretWithMetadata) (hiddenKeys : list string)
| editSecretStarted (payload : EditSecretParams)
| editSecretCompleted.

Definition reducer (now : string) (state : State) (a : Action) : Exc State :=
  match a with
  | openStarted dirPath basename => Reducers.openStarted dirPath basename state
  | openCompleted swm hiddenKeys => Reducers.openCompleted swm hiddenKeys state
  | editSecretStarted payload => Reducers.editSecretStarted payload state
  | editSecretCompleted => Reducers.editSecretCompleted now state
  end.

(** States the store can be in: from [null], by dispatching actions
    among the [allowed] ones, each at its own time. *)
Inductive reachable_by (allowed : State → Action → Prop) : State → Prop :=
| reachable_init : reachable_by allowed None
| reachable_step st a now st' :
    reachable_by allowed st →
    allowed st a →
    reducer now st a = Returned st' →
    reachable_by allowed st'.

(** States reachable by the operations of the slice. *)
Definition reachable : State → Prop :=
  reachable_by (λ _ _, True).

(** The secret record on display, empty while none is loaded. *)
Definition current_secret (st : State) : Secret :=
  match st with
  | Some s =>
      match s.(secretWithMetadata) with
      | Some swm => swm.(secret)
      | None => []
      end
  | None => []
  end.

Definition current_hiddenKeys (st : State) : list string :=
  match st with
  | Some s => s.(hiddenKeys)
  | None => []
  end.

(** A state with a loaded secret. *)
Definition loaded (st : State) : Prop :=
  ∃ s swm, st = Some s ∧ s.(secretWithMetadata) = Some swm.

(** ** Thunks *)

(** What the secrets manager client rejects with. *)
Record Error : Type := {
  name : string;
  message : string;
}.

(** An [async] thunk: it dispatches actions, reads the store, awaits
    [get] and [put] of the secrets manager client, and either returns or
    is rejected by an exception nobody catches. *)
Inductive Thunk (A : Type) : Type :=
| Return (a : A)
| Reject
| Dispatch (a : Action) (k : Thunk A)
| GetState (k : State → Thunk A)
| AwaitGet (path : string) (k : Error + SecretWithMetadata → Thunk A)
| AwaitPut (path : string) (secret : Secret) (k : option Error → Thunk A).
Arguments Return {A} a.
Arguments Reject {A}.
Arguments Dispatch {A} a k.
Arguments GetState {A} k.
Arguments AwaitGet {A} path k.
Arguments AwaitPut {A} path secret k.

Fixpoint thunk_bind {A B} (f : A → Thunk B) (t : Thunk A) : Thunk B :=
  match t with
  | Return a => f a
  | Reject => Reject
  | Dispatch a k => Dispatch a (thunk_bind f k)
  | GetState k => GetState (λ st, thunk_bind f (k st))
  | AwaitGet path k => AwaitGet path (λ r, thunk_bind f (k r))
  | AwaitPut path secret k => AwaitPut path secret (λ r, thunk_bind f (k r))
  end.

#[global] Instance Thunk_ret : MRet Thunk := λ A a, Return a.
#[global] Instance Thunk_bind : MBind Thunk := λ A B f t, thunk_bind f t.

Definition dispatch (a : Action) : Thunk unit := Dispatch a (Return tt).
Definition getState : Thunk State := GetState Return.
Definition get (path : string) : Thunk (Error + SecretWithMetadata) :=
  AwaitGet path Return.
Definition put (path : string) (secret : Secret) : Thunk (option Error) :=
  AwaitPut path secret Return.

(** [actions[creator](argument)] for a [creator] that [actions] does
    not have: the callee is [undefined], the call is a [TypeError],
    thrown once the argument has been evaluated; the enclosing
    [dispatch] is never entered. *)
Definition call_of_undefined {A B} (creator : string) (argument : A) : Thunk B :=
  Reject.

(** *** Reading the bookkeeping entry *)

(** [const { hiddenKeys, keysOrdering } = v]: a [TypeError] on
    [undefined] and [null]; only an object can have the two properties. *)
Definition destructure_ExtraValue (v : Value) : Exc (Value * Value) :=
  match v with
  | VUndefined | VNull => Thrown
  | VObject fields =>
      Returned (obj_get "hiddenKeys" fields, obj_get "keysOrdering" fields)
  | VBool _ | VNumber _ | VString _ | VArray _ | VInherited _ =>
      Returned (VUndefined, VUndefined)
  end.

(** [typeof v === "string"] *)
Definition typeof_string (v : Value) : bool :=
  match v with
  | VString _ => true
  | _ => false
  end.

(** [arr instanceof Array && arr.every(key => typeof key === "string")] *)
Definition is_string_array (arr : Value) : bool :=
  match arr with
  | VArray items => forallb typeof_string items
  | _ => false
  end.

(** A value that passed [is_string_array], read as a [string[]]. *)
Definition as_string_array (arr : Value) : list string :=
  match arr with
  | VArray items =>
      omap (λ v, match v with VString s => Some s | _ => None end) items
  | _ => []
  end.

(** The [try] block of [openSecret]. *)
Definition read_ExtraValue (secret : Secret)
  : Exc (list string * list string) :=
  '(hiddenKeys, keysOrdering) ← destructure_ExtraValue (obj_get extraKey secret);
  assert (is_string_array hiddenKeys);;
  assert (is_string_array keysOrdering);;
  mret (as_string_array hiddenKeys,
        filter (λ key, obj_in key secret) (as_string_array keysOrdering)).

(** The pair [{ hiddenKeys, keysOrdering }] of [openSecret]. *)
Definition hiddenKeys_and_keysOrdering (secret : Secret)
  : list string * list string :=
  try_catch (read_ExtraValue secret) ([], obj_keys secret).

(** [orderedSecret] of [openSecret]: a clone of the secret, from which
    the bookkeeping entry and the keys of [keysOrdering] are deleted,
    the latter being then assigned again in that order. *)
Definition orderedSecret (secret : Secret) (keysOrdering : list string)
  : Secret :=
  let orderedSecret := obj_spread secret in
  let orderedSecret := obj_delete extraKey orderedSecret in
  let orderedSecret := obj_delete_all keysOrdering orderedSecret in
  foldl (λ orderedSecret key, obj_put key (obj_get key secret) orderedSecret)
        orderedSecret keysOrdering.

(** *** Writing the bookkeeping entry *)

(** [id<ExtraValue>({ hiddenKeys, "keysOrdering": Object.keys(secret) })] *)
Definition ExtraValue (hiddenKeys keysOrdering : list string) : Value :=
  VObject [("hiddenKeys", VArray (VString <$> hiddenKeys));
           ("keysOrdering", VArray (VString <$> keysOrdering))].

(** [{ ...secret, [extraKey]: ... }], the secret given to [put]. *)
Definition put_payload (secret : Secret) (hiddenKeys : list string) : Secret :=
  obj_set extraKey (ExtraValue hiddenKeys (obj_keys secret)) (obj_spread secret).

(** [v === s] for a string [s] *)
Definition strict_eq_string (v : Value) (s : string) : bool :=
  match v with
  | VString s' => bool_decide (s' = s)
  | _ => false
  end.

(** The block under [//Optimizations]: the edits for which the thunk
    returns at once. *)
Definition optimized_away (params : EditSecretParams) (secret : Secret) : bool :=
  match params with
  | AddOrOverwriteKeyValue key value =>
      strict_eq_string (obj_get key secret) value
  | RenameKey key newKey =>
      bool_decide (key = newKey)
  | RenameKeyAndUpdateValue key newKey newValue =>
      bool_decide (key = newKey) && strict_eq_string (obj_get key secret) newValue
  | RemoveKeyValue key =>
      negb (obj_in key secret)
  | HideOrRevealKey _ _ => false
  end.

Section Thunks.

(** The path of the secret: [secretPath] in [openSecret],
    [state.currentPath] in [editCurrentlyShownSecret].  Neither is
    computed by the code at hand. *)
Variable secretPath : string.
Variable currentPath : SecretsEditorState → string.

(** The argument [openSecret] builds for
    [actions.navigationTowardSecretSuccess]. *)
Definition navigation_argument (secretWithMetadata : SecretWithMetadata)
  : SecretWithMetadata * string * list string :=
  let secret := secretWithMetadata.(secret) in
  let '(hiddenKeys, keysOrdering) := hiddenKeys_and_keysOrdering secret in
  ({| metadata := secretWithMetadata.(metadata);
      secret := orderedSecret secret keysOrdering |},
   secretPath, hiddenKeys).

Definition openSecret (dirPath basename : string) : Thunk unit :=
  dispatch (openStarted dirPath basename);;
  secretWithMetadata ← get secretPath;
  match secretWithMetadata with
  | inl error => call_of_undefined "errorOcurred" error.(message)
  | inr secretWithMetadata =>
      call_of_undefined "navigationTowardSecretSuccess"
                        (navigation_argument secretWithMetadata)
  end.

(** Modelled from the spec: the state [getState().secretExplorer] the
    thunk reads, with its cases and its field [currentPath], is not
    declared in the source at hand.  The spec knows a single state
    container: the state read is taken to be the state of this slice,
    and [assert(state.state === "SHOWING SECRET")] to hold when that
    state has a secret loaded. *)
Definition getSecretCurrentPathAndHiddenKeys
  : Thunk (string * list string * Secret) :=
  state ← getState;
  match state with
  | Some s =>
      match s.(secretWithMetadata) with
      | Some swm => mret (currentPath s, s.(hiddenKeys), swm.(secret))
      | None => Reject
      end
  | None => Reject
  end.

Definition editCurrentlyShownSecret (params : EditSecretParams) : Thunk unit :=
  '(_, _, secret) ← getSecretCurrentPathAndHiddenKeys;
  if optimized_away params secret then mret tt
  else
    dispatch (editSecretStarted params);;
    '(path, hiddenKeys, secret) ← getSecretCurrentPathAndHiddenKeys;
    error ← put path (put_payload secret hiddenKeys);
    match error with
    | Some error => call_of_undefined "errorOcurred" error.(message)
    | None => dispatch editSecretCompleted
    end.

End Thunks.

(** *** Running a thunk *)

Inductive Event : Type :=
| EvDispatch (a : Action)
| EvGet (path : string)
| EvPut (path : string) (secret : Secret).

(** Modelled from the spec: the secrets manager client port
    ([secretsManagerClientProxy]) is not part of the source at hand; it
    has [get] and [put] operations keyed by path, exchanging a secret's
    key-value record and its metadata.  It is modelled by the answers
    it gives: a rejection with an error, or the value. *)
Record SecretsManagerClient : Type := {
  client_get : string → Error + SecretWithMetadata;
  client_put : string → Secret → option Error;
}.

Record Outcome (A : Type) : Type := {
  trace : list Event;
  final_state : State;
  result : Exc A;
}.
Arguments trace {A} o.
Arguments final_state {A} o.
Arguments result {A} o.

Definition after {A} (e : Event) (o : Outcome A) : Outcome A :=
  {| trace := e :: o.(trace);
     final_state := o.(final_state);
     result := o.(result) |}.

(** The store applies the reducer on every dispatch; a reducer that
    throws leaves the state as it was and rejects the thunk. *)
Fixpoint run {A} (now : string) (client : SecretsManagerClient)
    (t : Thunk A) (st : State) : Outcome A :=
  match t with
  | Return a => {| trace := []; final_state := st; result := Returned a |}
  | Reject => {| trace := []; final_state := st; result := Thrown |}
  | Dispatch a k =>
      match reducer now st a with
      | Returned st' => after (EvDispatch a) (run now client k st')
      | Thrown =>
          {| trace := [EvDispatch a]; final_state := st; result := Thrown |}
      end
  | GetState k => run now client (k st) st
  | AwaitGet path k =>
      after (EvGet path) (run now client (k (client.(client_get) path)) st)
  | AwaitPut path secret k =>
      after (EvPut path secret)
            (run now client (k (client.(client_put) path secret)) st)
  end.

Definition is_put (e : Event) : bool :=
  match e with
  | EvPut _ _ => true
  | _ => false
  end.

Definition is_network_call (e : Event) : bool :=
  match e with
  | EvGet _ | EvPut _ _ => true
  | EvDispatch _ => false
  end.

(** ** Vocabulary of the properties *)

(** The record [o] with the entry of [key] rewritten in place: it is now
    under [newKey], with value [f v]; every other entry is where it
    was. *)
Definition renamed (key newKey : string) (f : Value → Value) (o : Secret)
  : Secret :=
  (λ p, if decide (p.1 = key) then (newKey, f p.2) else p) <$> o.

(** The edits of the key/value record, as opposed to hide and reveal. *)
Definition is_key_value_edit (p : EditSecretParams) : bool :=
  match p with
  | HideOrRevealKey _ _ => false
  | _ => true
  end.

(** The two renames. *)
Definition is_rename (p : EditSecretParams) : bool :=
  match p with
  | RenameKey _ _ | RenameKeyAndUpdateValue _ _ _ => true
  | _ => false
  end.

(** The keys an edit names. *)
Definition edit_keys (p : EditSecretParams) : list string :=
  match p with
  | AddOrOverwriteKeyValue key _ => [key]
  | RemoveKeyValue key => [key]
  | HideOrRevealKey _ key => [key]
  | RenameKey key newKey => [key; newKey]
  | RenameKeyAndUpdateValue key newKey _ => [key; newKey]
  end.

(** What renaming in place would be for every record and every pair of
    keys. *)
Definition renaming_always_in_place : Prop :=
  ∀ (st st' : State) (key newKey : string),
    loaded st →
    wf_obj (current_secret st) →
    key ∈ obj_keys (current_secret st) →
    Reducers.editSecretStarted (RenameKey key newKey) st = Returned st' →
    current_secret st' = renamed key newKey id (current_secret st).

(** The hidden keys are keys of the secret on display. *)
Definition hidden_subset (st : State) : Prop :=
  current_hiddenKeys st ⊆ obj_keys (current_secret st).

(** The dispatches that keep the hidden keys among the declared ones:
    [openCompleted] with hidden keys of the loaded secret, hiding a
    declared key, removing or renaming a key that is not hidden, and
    renaming at all only while ["__proto__"] is not hidden. *)
Definition careful (st : State) (a : Action) : Prop :=
  match a with
  | openCompleted swm hiddenKeys => hiddenKeys ⊆ obj_keys swm.(secret)
  | editSecretStarted (RemoveKeyValue key) => key ∉ current_hiddenKeys st
  | editSecretStarted (RenameKey key newKey) =>
      ("__proto__" ∉ current_hiddenKeys st)
      ∧ (key ∉ current_hiddenKeys st ∨ key = newKey)
  | editSecretStarted (RenameKeyAndUpdateValue key newKey _) =>
      ("__proto__" ∉ current_hiddenKeys st)
      ∧ (key ∉ current_hiddenKeys st ∨ key = newKey)
  | editSecretStarted (HideOrRevealKey hide key) =>
      key ∈ obj_keys (current_secret st)
  | _ => True
  end.

(** Sample data. *)
Definition sample_metadata : Metadata :=
  {| created_time := "2022-03-01T10:00:00.000Z";
     version := 3;
     other_metadata := [("destroyed", VBool false)] |}.

Definition sample_opening : State :=
  Some {| dirPath := "/projects/demo";
          basename := "credentials";
          secretWithMetadata := None;
          hiddenKeys := [];
          isBeingUpdated := true |}.

Definition sample_state (secret : Secret) (hiddenKeys : list string)
    (isBeingUpdated : bool) : State :=
  Some {| dirPath := "/projects/demo";
          basename := "credentials";
          secretWithMetadata :=
            Some {| secret := secret; metadata := sample_metadata |};
          hiddenKeys := hiddenKeys;
          isBeingUpdated := isBeingUpdated |}.

(** A state whose secret is at the given version. *)
Definition state_at_version (v : Z) : SecretsEditorState :=
  {| dirPath := "/projects/demo";
     basename := "credentials";
     secretWithMetadata :=
       Some {| secret := [("user", VString "alice")];
               metadata := {| created_time := "2022-03-01T10:00:00.000Z";
                              version := v;
                              other_metadata := [] |} |};
     hiddenKeys := [];
     isBeingUpdated := true |}.

(** What an increment by exactly one would be at every version. *)
Definition version_always_incremented : Prop :=
  ∀ (now : string) (s : SecretsEditorState) (swm : SecretWithMetadata),
    s.(secretWithMetadata) = Some swm →
    ∃ s' swm',
      Reducers.editSecretCompleted now (Some s) = Returned (Some s')
      ∧ s'.(secretWithMetadata) = Some swm'
      ∧ swm'.(metadata).(version) = (swm.(metadata).(version) + 1)%Z.

(** A client whose [get] and [put] give fixed answers. *)
Definition sample_client (got : Error + SecretWithMetadata)
    (put_error : option Error) : SecretsManagerClient :=
  {| client_get := λ _, got;
     client_put := λ _ _, put_error |}.

Definition sample_error : Error :=
  {| name := "AxiosError"; message := "Request failed with status code 403" |}.

Definition sample_currentPath (s : SecretsEditorState) : string :=
  s.(dirPath) +:+ "/" +:+ s.(basename).

(** The bookkeeping entry of a stored secret is well formed when it is
    an object whose [hiddenKeys] and [keysOrdering] are arrays of
    strings. *)
Definition ExtraValue_of (secret : Secret) (hiddenKeys keysOrdering : list string)
  : Prop :=
  ∃ fields,
    obj_lookup extraKey secret = Some (VObject fields)
    ∧ obj_lookup "hiddenKeys" fields = Some (VArray (VString <$> hiddenKeys))
    ∧ obj_lookup "keysOrdering" fields = Some (VArray (VString <$> keysOrdering)).

Definition well_formed_entry (secret : Secret) : Prop :=
  ∃ hiddenKeys keysOrdering, ExtraValue_of secret hiddenKeys keysOrdering.

(** The state [editSecretStarted] leaves when [s] holds the secret
    [swm]: the edit applied, the update flagged. *)
Definition edited (p : EditSecretParams) (s : SecretsEditorState)
    (swm : SecretWithMetadata) : SecretsEditorState :=
  {| dirPath := s.(dirPath);
     basename := s.(basename);
     secretWithMetadata :=
       Some {| secret := (Reducers.applyEdit p swm.(secret) s.(hiddenKeys)).1;
               metadata := swm.(metadata) |};
     hiddenKeys := (Reducers.applyEdit p swm.(secret) s.(hiddenKeys)).2;
     isBeingUpdated := true |}.

(** The secret [openSecret] puts in order for a stored secret, which is
    the one it means to display. *)
Definition displayed (secret : Secret) : Secret :=
  orderedSecret secret (hiddenKeys_and_keysOrdering secret).2.

(** ** Storybook scaffolding *)

Module Story.

(** [breakpointsValues] of [onyxia-ui], in pixels: the four entries the
    code reads. *)
Record BreakpointsValues : Type := {
  sm : Z;
  md : Z;
  lg : Z;
  xl : Z;
}.

(** [range] of the component [ScreenSize]. *)
Definition range (breakpointsValues : BreakpointsValues)
    (windowInnerWidth : Z) : string :=
  if (breakpointsValues.(xl) <=? windowInnerWidth)%Z then "xl-∞"
  else if (breakpointsValues.(lg) <=? windowInnerWidth)%Z then "lg-xl"
  else if (breakpointsValues.(md) <=? windowInnerWidth)%Z then "md-lg"
  else if (breakpointsValues.(sm) <=? windowInnerWidth)%Z then "sm-md"
  else "0-sm".

(** [{ ...target, ...source }], [target] being built already. *)
Definition obj_assign (target source : Secret) : Secret :=
  foldl (λ acc p, obj_set p.1 p.2 acc) target source.

(** The controls every story has, with their defaults;
    [defaultContainerWidth ?? 0]. *)
Definition default_args (defaultContainerWidth : option Z) : Secret :=
  [("darkMode", VBool false);
   ("containerWidth", VNumber (default 0%Z defaultContainerWidth));
   ("targetWindowInnerWidth", VNumber 0);
   ("chromeFontSize", VString "Medium (Recommended)");
   ("lng", VString "en")].

(** [out.args] of [getStory], for props holding JSON values. *)
Definition getStory_args (defaultContainerWidth : option Z) (props : Secret)
  : Secret :=
  obj_assign (default_args defaultContainerWidth) props.

End Story.

(** ** The bar of API logs *)

Module ApiLogsBar.

(** An entry of [apiLogs.history]; [resp] is undefined while the answer
    is awaited. *)
Record ApiLogEntry : Type := {
  cmdId : Z;
  cmd : string;
  resp : option string;
}.

Definition backslash : ascii := "092".
Definition line_feed : ascii := "010".

(** [cmd.replace(/\\\n/g, " ")]: every backslash followed by a line
    feed becomes one space, the text being read from left to right. *)
Fixpoint replace_continuations (cmd : string) : string :=
  match cmd with
  | EmptyString => EmptyString
  | String c rest =>
      match rest with
      | String c' rest' =>
          if bool_decide (c = backslash) && bool_decide (c' = line_feed)
          then String " " (replace_continuations rest')
          else String c (replace_continuations rest)
      | EmptyString => String c EmptyString
      end
  end.

(** [apiLogs.history.slice(-1)[0]?.cmd.replace(...)], the text of the
    header; undefined on an empty history. *)
Definition lastTranslatedCmd (history : list ApiLogEntry) : option string :=
  (λ entry, replace_continuations entry.(cmd)) <$> last history.

(** Whether a backslash followed by a line feed occurs in the text. *)
Fixpoint has_continuation (text : string) : bool :=
  match text with
  | EmptyString => false
  | String c rest =>
      match rest with
      | String c' _ =>
          (bool_decide (c = backslash) && bool_decide (c' = line_feed))
          || has_continuation rest
      | EmptyString => false
      end
  end.

End ApiLogsBar.

(** * Properties *)

(** Closed decidable facts are settled by evaluating their decision
    procedure. *)
Ltac decide_by_computation :=
  apply (bool_decide_unpack _); vm_compute; exact I.

Example array_index_examples :
  array_index "0" = Some 0%N ∧ array_index "42" = Some 42%N ∧
  array_index "007" = None ∧ array_index "a1" = None ∧
  array_index "" = None ∧
  array_index "4294967294" = Some 4294967294%N ∧
  array_index "4294967295" = None.
Proof. repeat split; vm_compute; reflexivity. Qed.

Example obj_set_examples :
  obj_set "b" (VString "2") [("a", VString "1")]
    = [("a", VString "1"); ("b", VString "2")] ∧
  obj_set "a" (VString "9") [("a", VString "1"); ("b", VString "2")]
    = [("a", VString "9"); ("b", VString "2")] ∧
  obj_set "1" (VString "x") [("3", VNull); ("a", VString "1")]
    = [("1", VString "x"); ("3", VNull); ("a", VString "1")] ∧
  obj_set "5" (VString "x") [("3", VNull); ("a", VString "1")]
    = [("3", VNull); ("5", VString "x"); ("a", VString "1")].
Proof. repeat split; vm_compute; reflexivity. Qed.

(** An assignment under ["__proto__"] creates no property, a definition
    does; an own property of that name is overwritten; an inherited
    name is shadowed. *)
Example obj_put_examples :
  obj_put "b" (VString "2") [("a", VString "1")]
    = [("a", VString "1"); ("b", VString "2")] ∧
  obj_put "__proto__" (VString "2") [("a", VString "1")]
    = [("a", VString "1")] ∧
  obj_set "__proto__" (VString "2") [("a", VString "1")]
    = [("a", VString "1"); ("__proto__", VString "2")] ∧
  obj_put "__proto__" (VString "2") [("__proto__", VString "1"); ("a", VNull)]
    = [("__proto__", VString "2"); ("a", VNull)] ∧
  obj_put "toString" (VString "2") [("a", VString "1")]
    = [("a", VString "1"); ("toString", VString "2")].
Proof. repeat split; vm_compute; reflexivity. Qed.

Example obj_in_examples :
  obj_in "a" [("a", VString "1")] = true ∧
  obj_in "b" [("a", VString "1")] = false ∧
  obj_in "toString" [("a", VString "1")] = true ∧
  obj_has "toString" [("a", VString "1")] = false ∧
  obj_get "toString" [("a", VString "1")] = VInherited "toString" ∧
  obj_get "b" [("a", VString "1")] = VUndefined.
Proof. repeat split; vm_compute; reflexivity. Qed.

Example increment_examples :
  JsNumber.increment 3 = 4%Z ∧
  JsNumber.increment (-1) = 0%Z ∧
  JsNumber.increment (2 ^ 53 - 1) = (2 ^ 53)%Z ∧
  JsNumber.increment (2 ^ 53) = (2 ^ 53)%Z ∧
  JsNumber.increment (2 ^ 53 + 2) = (2 ^ 53 + 4)%Z ∧
  JsNumber.increment (2 ^ 60) = (2 ^ 60)%Z ∧
  JsNumber.increment (- 2 ^ 53) = (- 2 ^ 53 + 1)%Z.
Proof. repeat split; vm_compute; reflexivity. Qed.

Example wf_obj_example : wf_obj [("3", VNull); ("a", VString "1"); ("B", VNull)].
Proof. decide_by_computation. Qed.

Example renameKey_examples :
  Reducers.renameKey "a" "c" [("a", VString "1"); ("b", VString "2")]
    = [("c", VString "1"); ("b", VString "2")] ∧
  Reducers.renameKey "zz" "c" [("a", VString "1"); ("b", VString "2")]
    = [("a", VString "1"); ("b", VString "2")] ∧
  Reducers.renameKey "b" "a" [("a", VString "1"); ("b", VString "2")]
    = [("a", VString "2")] ∧
  Reducers.renameKey "a" "7" [("x", VString "1"); ("a", VString "2")]
    = [("7", VString "2"); ("x", VString "1")].
Proof. repeat split; vm_compute; reflexivity. Qed.

(** An entry under ["__proto__"] does not survive a rename, and a
    rename to ["__proto__"] loses the entry renamed. *)
Example renameKey_proto_examples :
  Reducers.renameKey "a" "b" [("__proto__", VString "x"); ("a", VString "1")]
    = [("b", VString "1")] ∧
  Reducers.renameKey "a" "__proto__" [("a", VString "1"); ("b", VString "2")]
    = [("b", VString "2")] ∧
  Reducers.renameKey "a" "a" [("__proto__", VString "x"); ("a", VString "1")]
    = [("a", VString "1")].
Proof. repeat split; vm_compute; reflexivity. Qed.

(** The guards of the thunk on names that objects inherit. *)
Example optimized_away_examples :
  optimized_away (RemoveKeyValue "gone") [("user", VString "alice")] = true ∧
  optimized_away (RemoveKeyValue "toString") [("user", VString "alice")]
    = false ∧
  optimized_away (AddOrOverwriteKeyValue "user" "alice")
    [("user", VString "alice")] = true ∧
  optimized_away (AddOrOverwriteKeyValue "__proto__" "alice")
    [("user", VString "alice")] = false.
Proof. repeat split; vm_compute; reflexivity. Qed.

Example put_payload_example :
  put_payload [("user", VString "alice"); ("password", VString "s3cret")]
              ["password"]
  = [("user", VString "alice"); ("password", VString "s3cret");
     (".onyxia",
      VObject [("hiddenKeys", VArray [VString "password"]);
               ("keysOrdering", VArray [VString "user"; VString "password"])])].
Proof. vm_compute; reflexivity. Qed.

(** A store that returns the keys in another order, with a key the
    bookkeeping does not know and one it knows that is gone. *)
Example openSecret_reorders :
  let stored :=
    [("password", VString "s3cret"); ("extra", VNull);
     (".onyxia",
      VObject [("hiddenKeys", VArray [VString "password"]);
               ("keysOrdering",
                VArray [VString "user"; VString "gone"; VString "password"])]);
     ("user", VString "alice")] in
  hiddenKeys_and_keysOrdering stored = (["password"], ["user"; "password"])
  ∧ orderedSecret stored ["user"; "password"]
    = [("extra", VNull); ("user", VString "alice");
       ("password", VString "s3cret")].
Proof. split; vm_compute; reflexivity. Qed.

(** A key order that lists a name every object inherits: the name
    passes [key in secret], and the secret put in order gets an entry
    for it. *)
Example openSecret_inherited_name :
  let stored :=
    [("user", VString "alice");
     (".onyxia",
      VObject [("hiddenKeys", VArray []);
               ("keysOrdering", VArray [VString "user"; VString "toString"])])] in
  hiddenKeys_and_keysOrdering stored = ([], ["user"; "toString"])
  ∧ orderedSecret stored ["user"; "toString"]
    = [("user", VString "alice"); ("toString", VInherited "toString")].
Proof. split; vm_compute; reflexivity. Qed.

Example malformed_entries :
  hiddenKeys_and_keysOrdering [("user", VString "alice")] = ([], ["user"])
  ∧ hiddenKeys_and_keysOrdering
      [("user", VString "alice"); (".onyxia", VNull)]
    = ([], ["user"; ".onyxia"])
  ∧ hiddenKeys_and_keysOrdering
      [("user", VString "alice");
       (".onyxia", VObject [("hiddenKeys", VArray [VNumber 1]);
                            ("keysOrdering", VArray [VString "user"])])]
    = ([], ["user"; ".onyxia"])
  ∧ hiddenKeys_and_keysOrdering
      [("user", VString "alice");
       (".onyxia", VObject [("hiddenKeys", VArray [])])]
    = ([], ["user"; ".onyxia"]).
Proof. repeat split; vm_compute; reflexivity. Qed.

(** ** Objects *)

Section ObjectFacts.

Implicit Types (o : Secret) (k : string) (v : Value).

Lemma key_le_named k k' : array_index k = None → key_le k' k.
Proof. unfold key_le, key_leb. intros ->. by destruct (array_index k'). Qed.

#[global] Instance key_le_trans : Transitive key_le.
Proof.
  intros a b c. unfold key_le, key_leb.
  destruct (array_index a), (array_index b), (array_index c); try done.
  rewrite !N.leb_le. lia.
Qed.

Lemma obj_lookup_None k o : obj_lookup k o = None ↔ k ∉ obj_keys o.
Proof.
  induction o as [|[k' v'] o IH]; simpl.
  - split; [intros _; apply not_elem_of_nil | done].
  - rewrite not_elem_of_cons. case_decide; naive_solver.
Qed.

Lemma obj_lookup_is_Some k o : is_Some (obj_lookup k o) ↔ k ∈ obj_keys o.
Proof.
  rewrite <-not_eq_None_Some, obj_lookup_None.
  destruct (decide (k ∈ obj_keys o)); naive_solver.
Qed.

Lemma obj_has_true k o : obj_has k o = true ↔ k ∈ obj_keys o.
Proof.
  unfold obj_has. rewrite bool_decide_eq_true. apply obj_lookup_is_Some.
Qed.

Lemma obj_has_false k o : obj_has k o = false ↔ k ∉ obj_keys o.
Proof. rewrite <-obj_has_true. by destruct (obj_has k o). Qed.

Lemma obj_lookup_NoDup k v o :
  NoDup (obj_keys o) → (k, v) ∈ o → obj_lookup k o = Some v.
Proof.
  induction o as [|[k' v'] o IH]; simpl; [by rewrite elem_of_nil|].
  rewrite NoDup_cons, elem_of_cons. intros [Hk' Hnd] [Heq|Hin].
  - simplify_eq. by rewrite decide_True.
  - rewrite decide_False; [auto|]. intros ->. apply Hk'.
    apply (list_elem_of_fmap_2 fst) in Hin. done.
Qed.

Lemma obj_get_NoDup k v o :
  NoDup (obj_keys o) → (k, v) ∈ o → obj_get k o = v.
Proof. intros. unfold obj_get. by erewrite obj_lookup_NoDup. Qed.

(** Keys after [delete], assignment and insertion. *)

Lemma obj_keys_delete k o :
  obj_keys (obj_delete k o) = filter (λ k', k' ≠ k) (obj_keys o).
Proof.
  unfold obj_keys, obj_delete. induction o as [|[k' v'] o IH]; [done|].
  rewrite fmap_cons, !filter_cons. simpl.
  destruct (decide (k' ≠ k)); by rewrite ?fmap_cons, IH.
Qed.

Lemma elem_of_obj_keys_delete k k' o :
  k' ∈ obj_keys (obj_delete k o) ↔ k' ≠ k ∧ k' ∈ obj_keys o.
Proof. by rewrite obj_keys_delete, list_elem_of_filter. Qed.

Lemma obj_delete_absent k o : k ∉ obj_keys o → obj_delete k o = o.
Proof.
  unfold obj_delete. induction o as [|[k' v'] o IH]; [done|]. simpl.
  rewrite not_elem_of_cons. intros [? ?].
  rewrite filter_cons_True by done. by rewrite IH.
Qed.

Lemma obj_delete_idemp k o : obj_delete k (obj_delete k o) = obj_delete k o.
Proof.
  apply obj_delete_absent. rewrite elem_of_obj_keys_delete. naive_solver.
Qed.

Lemma obj_keys_overwrite k v o : obj_keys (obj_overwrite k v o) = obj_keys o.
Proof.
  induction o as [|[k' v'] o IH]; [done|]. simpl.
  case_decide; [done|]. unfold obj_keys in *. by rewrite !fmap_cons, IH.
Qed.

Lemma elem_of_obj_keys_insert k k' v o :
  k' ∈ obj_keys (obj_insert k v o) ↔ k' = k ∨ k' ∈ obj_keys o.
Proof.
  induction o as [|[k1 v1] o IH]; simpl.
  - rewrite list_elem_of_singleton, elem_of_nil. naive_solver.
  - destruct (key_leb k1 k); unfold obj_keys in *;
      rewrite ?fmap_cons, ?elem_of_cons; simpl; [rewrite IH|]; naive_solver.
Qed.

Lemma elem_of_obj_keys_set k k' v o :
  k' ∈ obj_keys (obj_set k v o) ↔ k' = k ∨ k' ∈ obj_keys o.
Proof.
  unfold obj_set. destruct (obj_has k o) eqn:Hhas.
  - rewrite obj_keys_overwrite. apply obj_has_true in Hhas. naive_solver.
  - apply elem_of_obj_keys_insert.
Qed.

(** Values after assignment. *)

Lemma obj_lookup_overwrite k v o :
  k ∈ obj_keys o → obj_lookup k (obj_overwrite k v o) = Some v.
Proof.
  induction o as [|[k1 v1] o IH]; simpl; [by rewrite elem_of_nil|].
  rewrite elem_of_cons. intros Hin. case_decide; simpl.
  - by rewrite decide_True.
  - rewrite decide_False by done. naive_solver.
Qed.

Lemma obj_lookup_overwrite_ne k k' v o :
  k' ≠ k → obj_lookup k' (obj_overwrite k v o) = obj_lookup k' o.
Proof.
  intros Hne. induction o as [|[k1 v1] o IH]; simpl; [done|].
  case_decide; simpl; subst.
  - by rewrite !decide_False.
  - by rewrite IH.
Qed.

Lemma obj_lookup_insert k v o :
  k ∉ obj_keys o → obj_lookup k (obj_insert k v o) = Some v.
Proof.
  induction o as [|[k1 v1] o IH]; simpl.
  - by rewrite decide_True.
  - rewrite not_elem_of_cons. intros [? ?].
    destruct (key_leb k1 k); simpl.
    + rewrite decide_False by done. auto.
    + by rewrite decide_True.
Qed.

Lemma obj_lookup_insert_ne k k' v o :
  k' ≠ k → obj_lookup k' (obj_insert k v o) = obj_lookup k' o.
Proof.
  intros Hne. induction o as [|[k1 v1] o IH]; simpl.
  - by rewrite decide_False.
  - destruct (key_leb k1 k); simpl.
    + by rewrite IH.
    + by rewrite (decide_False (P := k = k')).
Qed.

Lemma obj_lookup_set k v o : obj_lookup k (obj_set k v o) = Some v.
Proof.
  unfold obj_set. destruct (obj_has k o) eqn:Hhas.
  - apply obj_lookup_overwrite. by apply obj_has_true.
  - apply obj_lookup_insert. by apply obj_has_false.
Qed.

Lemma obj_lookup_set_ne k k' v o :
  k' ≠ k → obj_lookup k' (obj_set k v o) = obj_lookup k' o.
Proof.
  intros. unfold obj_set. destruct (obj_has k o).
  - by apply obj_lookup_overwrite_ne.
  - by apply obj_lookup_insert_ne.
Qed.

Lemma obj_lookup_delete_ne k k' o :
  k' ≠ k → obj_lookup k' (obj_delete k o) = obj_lookup k' o.
Proof.
  intros Hne. unfold obj_delete. induction o as [|[k1 v1] o IH]; [done|].
  rewrite filter_cons. simpl. destruct (decide (k1 ≠ k)) as [?|Heq]; simpl.
  - by rewrite IH.
  - apply dec_stable in Heq. subst. by rewrite decide_False.
Qed.

(** Where a new property goes. *)

Lemma obj_insert_last k v o :
  Forall (λ k', key_le k' k) (obj_keys o) → obj_insert k v o = o ++ [(k, v)].
Proof.
  induction o as [|[k1 v1] o IH]; simpl; [done|].
  rewrite Forall_cons. intros [Hle ?]. unfold key_le in Hle.
  rewrite Hle. by rewrite IH.
Qed.

Lemma js_ordered_app_cons o1 k v o2 :
  js_ordered (o1 ++ (k, v) :: o2) →
  Forall (λ k', key_le k' k) (obj_keys o1).
Proof.
  unfold js_ordered, obj_keys. rewrite fmap_app, fmap_cons. simpl.
  intros Hs. apply Forall_forall. intros k' Hk'.
  eapply StronglySorted_app_1_elem_of; [done..|left].
Qed.

(** Copying the properties of a well-formed object one by one onto a
    well-formed prefix rebuilds the object. *)
Lemma foldl_obj_set_app o1 o2 :
  wf_obj (o1 ++ o2) →
  foldl (λ acc p, obj_set p.1 p.2 acc) o1 o2 = o1 ++ o2.
Proof.
  revert o1. induction o2 as [|[k v] o2 IH]; intros o1 [Hnd Hs]; simpl.
  - by rewrite app_nil_r.
  - assert (k ∉ obj_keys o1) as Hk.
    { unfold obj_keys in *. rewrite fmap_app, fmap_cons in Hnd.
      apply NoDup_app in Hnd as (_ & Hnd & _).
      intros Hin. apply (Hnd _ Hin). left. }
    unfold obj_set. apply obj_has_false in Hk. rewrite Hk.
    rewrite obj_insert_last by by eapply js_ordered_app_cons.
    rewrite IH; rewrite <-app_assoc; done.
Qed.

Lemma obj_spread_wf o : wf_obj o → obj_spread o = o.
Proof. intros. unfold obj_spread. by rewrite foldl_obj_set_app. Qed.

Lemma obj_delete_all_nil ks : obj_delete_all ks [] = [].
Proof. induction ks; simpl; auto. Qed.

Lemma obj_delete_all_cons k ks o :
  obj_delete_all (k :: ks) o = obj_delete_all ks (obj_delete k o).
Proof. done. Qed.

Lemma elem_of_obj_keys_delete_all ks k o :
  k ∈ obj_keys (obj_delete_all ks o) ↔ (k ∉ ks) ∧ k ∈ obj_keys o.
Proof.
  revert o. induction ks as [|k1 ks IH]; intros o.
  - simpl. rewrite elem_of_nil. naive_solver.
  - rewrite obj_delete_all_cons, IH, elem_of_obj_keys_delete, not_elem_of_cons.
    naive_solver.
Qed.

Lemma obj_lookup_delete_all_ne ks k o :
  k ∉ ks → obj_lookup k (obj_delete_all ks o) = obj_lookup k o.
Proof.
  revert o. induction ks as [|k1 ks IH]; intros o Hk; [done|].
  apply not_elem_of_cons in Hk as [? ?].
  by rewrite obj_delete_all_cons, IH, obj_lookup_delete_ne.
Qed.

Lemma obj_delete_all_keys ks o :
  (∀ k, k ∈ obj_keys o → k ∈ ks) → obj_delete_all ks o = [].
Proof.
  intros Hsub. destruct (obj_delete_all ks o) as [|[k v] o'] eqn:Heq; [done|].
  assert (k ∈ obj_keys (obj_delete_all ks o)) as Hin
    by (rewrite Heq; left).
  apply elem_of_obj_keys_delete_all in Hin. naive_solver.
Qed.

Lemma obj_delete_all_filter ks o :
  obj_delete_all ks o = filter (λ p, p.1 ∉ ks) o.
Proof.
  revert o. induction ks as [|k ks IH]; intros o.
  - simpl. induction o as [|p o IHo]; [done|].
    rewrite filter_cons_True by apply not_elem_of_nil. by rewrite <-IHo.
  - rewrite obj_delete_all_cons, IH. unfold obj_delete.
    induction o as [|p o IHo]; [done|].
    rewrite !filter_cons.
    destruct (decide (p.1 ≠ k)) as [Hne|Heq].
    + rewrite filter_cons.
      destruct (decide (p.1 ∉ ks)), (decide (p.1 ∉ k :: ks)) as [Hn|Hn];
        rewrite ?IHo; try done; rewrite not_elem_of_cons in Hn; naive_solver.
    + apply dec_stable in Heq. rewrite decide_False; [done|].
      rewrite not_elem_of_cons. naive_solver.
Qed.

(** Well-formedness is kept by the three operations. *)

#[global] Instance key_le_total : Total key_le.
Proof.
  intros a b. unfold key_le, key_leb.
  destruct (array_index a), (array_index b); auto.
  rewrite !N.leb_le. lia.
Qed.

Lemma StronglySorted_filter {A} (R : relation A) (P : A → Prop)
    `{!∀ x, Decision (P x)} (l : list A) :
  StronglySorted R l → StronglySorted R (filter P l).
Proof.
  induction 1 as [|x l Hs IH Hall]; [constructor|].
  rewrite filter_cons. case_decide; [|done].
  constructor; [done|]. apply Forall_forall.
  intros y [_ Hy]%list_elem_of_filter. by eapply Forall_forall in Hall.
Qed.

Lemma wf_obj_filter (P : string → Prop) `{!∀ k, Decision (P k)} o :
  wf_obj o → wf_obj (filter (λ p, P p.1) o).
Proof.
  assert (obj_keys (filter (λ p, P p.1) o) = filter P (obj_keys o)) as Hk.
  { unfold obj_keys. induction o as [|[k v] o IH]; [done|].
    rewrite fmap_cons, !filter_cons. simpl.
    case_decide; by rewrite ?fmap_cons, IH. }
  unfold wf_obj, js_ordered. rewrite Hk. intros [? ?]. split.
  - by apply NoDup_filter.
  - by apply StronglySorted_filter.
Qed.

Lemma wf_obj_delete k o : wf_obj o → wf_obj (obj_delete k o).
Proof. intros H. exact (wf_obj_filter (λ k', k' ≠ k) o H). Qed.

Lemma wf_obj_delete_all ks o : wf_obj o → wf_obj (obj_delete_all ks o).
Proof.
  intros H. rewrite obj_delete_all_filter.
  exact (wf_obj_filter (λ k', k' ∉ ks) o H).
Qed.

Lemma obj_insert_perm k v o : obj_insert k v o ≡ₚ (k, v) :: o.
Proof.
  induction o as [|[k1 v1] o IH]; simpl; [done|].
  destruct (key_leb k1 k); [|done]. rewrite IH. apply Permutation_swap.
Qed.

Lemma js_ordered_insert k v o :
  js_ordered o → js_ordered (obj_insert k v o).
Proof.
  unfold js_ordered. induction o as [|[k1 v1] o IH]; simpl.
  - intros _. repeat constructor.
  - unfold obj_keys in *.
    intros [Hall Hs]%StronglySorted_cons.
    destruct (key_leb k1 k) eqn:Hle; simpl.
    + apply StronglySorted_cons. split; [|auto].
      apply Forall_forall. intros k' Hk'.
      apply (elem_of_obj_keys_insert k k' v o) in Hk' as [->|Hk']; [done|].
      by eapply Forall_forall in Hall.
    + assert (key_le k k1) as Hk.
      { destruct (total key_le k k1) as [?|Hc]; [done|].
        unfold key_le in Hc. congruence. }
      apply StronglySorted_cons. split.
      * constructor; [done|]. eapply Forall_impl; [done|].
        intros k' ?. by etrans.
      * by apply StronglySorted_cons.
Qed.

Lemma wf_obj_set k v o : wf_obj o → wf_obj (obj_set k v o).
Proof.
  unfold obj_set, wf_obj. intros [Hnd Hs].
  destruct (obj_has k o) eqn:Hhas.
  - unfold js_ordered. by rewrite obj_keys_overwrite.
  - split; [|by apply js_ordered_insert].
    unfold obj_keys. rewrite obj_insert_perm, fmap_cons. simpl.
    apply NoDup_cons. split; [|done]. by apply obj_has_false.
Qed.

Lemma wf_obj_foldl_set {A} (f : A → string) (g : A → Value) (l : list A) o :
  wf_obj o → wf_obj (foldl (λ acc x, obj_set (f x) (g x) acc) o l).
Proof.
  revert o. induction l as [|x l IH]; intros o Ho; simpl; [done|].
  apply IH. by apply wf_obj_set.
Qed.

Lemma wf_obj_nil : wf_obj [].
Proof. split; constructor. Qed.

(** [delete] against assignment. *)

Lemma obj_delete_cons k k1 v1 o :
  obj_delete k ((k1, v1) :: o)
  = if decide (k1 = k) then obj_delete k o else (k1, v1) :: obj_delete k o.
Proof.
  unfold obj_delete. rewrite filter_cons. simpl.
  destruct (decide (k1 ≠ k)) as [?|Heq].
  - by rewrite decide_False.
  - apply dec_stable in Heq. by rewrite decide_True.
Qed.

Lemma obj_delete_overwrite k v o :
  obj_delete k (obj_overwrite k v o) = obj_delete k o.
Proof.
  induction o as [|[k1 v1] o IH]; simpl; [done|].
  case_decide; rewrite !obj_delete_cons; subst.
  - by rewrite !decide_True.
  - by rewrite !decide_False, IH.
Qed.

Lemma obj_delete_insert k v o :
  obj_delete k (obj_insert k v o) = obj_delete k o.
Proof.
  induction o as [|[k1 v1] o IH]; simpl.
  - rewrite obj_delete_cons. by rewrite decide_True.
  - destruct (key_leb k1 k).
    + rewrite !obj_delete_cons, IH. done.
    + rewrite (obj_delete_cons k k). by rewrite decide_True.
Qed.

Lemma obj_delete_set k v o : obj_delete k (obj_set k v o) = obj_delete k o.
Proof.
  unfold obj_set. destruct (obj_has k o).
  - apply obj_delete_overwrite.
  - apply obj_delete_insert.
Qed.

Lemma obj_delete_overwrite_ne k k' v o :
  k ≠ k' →
  obj_delete k (obj_overwrite k' v o) = obj_overwrite k' v (obj_delete k o).
Proof.
  intros Hne. induction o as [|[k1 v1] o IH]; simpl; [done|].
  case_decide; subst; rewrite !obj_delete_cons.
  - rewrite !decide_False by done. simpl. by rewrite decide_True.
  - case_decide; [done|]. simpl. rewrite decide_False by done. by rewrite IH.
Qed.

Lemma obj_insert_first k v o :
  Forall (λ k', ¬ key_le k' k) (obj_keys o) → obj_insert k v o = (k, v) :: o.
Proof.
  destruct o as [|[k1 v1] o]; simpl; [done|].
  intros [Hk1 _]%Forall_cons. unfold key_le in Hk1.
  by destruct (key_leb k1 k).
Qed.

Lemma obj_delete_insert_ne k k' v o :
  k ≠ k' → js_ordered o →
  obj_delete k (obj_insert k' v o) = obj_insert k' v (obj_delete k o).
Proof.
  intros Hne. unfold js_ordered.
  induction o as [|[k1 v1] o IH]; simpl; intros Hs.
  - rewrite obj_delete_cons. by rewrite decide_False.
  - apply StronglySorted_cons in Hs as [Hall Hs].
    destruct (key_leb k1 k') eqn:Hle.
    + rewrite !obj_delete_cons. case_decide; [by apply IH|].
      simpl. rewrite Hle. by rewrite IH.
    + rewrite (obj_delete_cons k k'), decide_False by done.
      rewrite obj_delete_cons. case_decide; [|by simpl; rewrite Hle].
      rewrite obj_insert_first; [done|].
      rewrite obj_keys_delete. apply Forall_forall.
      intros k2 [_ Hk2]%list_elem_of_filter Hc.
      eapply Forall_forall in Hall; [|done].
      assert (key_le k1 k') as Hk by by etrans.
      unfold key_le in Hk. congruence.
Qed.

Lemma obj_has_delete_ne k k' o :
  k ≠ k' → obj_has k' (obj_delete k o) = obj_has k' o.
Proof. intros. unfold obj_has. by rewrite obj_lookup_delete_ne. Qed.

Lemma obj_delete_set_ne k k' v o :
  k ≠ k' → js_ordered o →
  obj_delete k (obj_set k' v o) = obj_set k' v (obj_delete k o).
Proof.
  intros Hne Hs. unfold obj_set. rewrite obj_has_delete_ne by done.
  destruct (obj_has k' o).
  - by apply obj_delete_overwrite_ne.
  - by apply obj_delete_insert_ne.
Qed.

Lemma obj_delete_all_set ks k v o :
  wf_obj o →
  obj_delete_all ks (obj_set k v o)
  = if decide (k ∈ ks) then obj_delete_all ks o
    else obj_set k v (obj_delete_all ks o).
Proof.
  revert o. induction ks as [|k1 ks IH]; intros o Ho.
  - destruct (decide (k ∈ [])) as [Hin|_]; [|done]. by apply elem_of_nil in Hin.
  - rewrite !obj_delete_all_cons. destruct (decide (k1 = k)) as [->|Hne].
    + rewrite obj_delete_set.
      destruct (decide (k ∈ k :: ks)) as [_|Hn]; [done|].
      exfalso. apply Hn. left.
    + rewrite obj_delete_set_ne by (done || apply Ho).
      rewrite IH by by apply wf_obj_delete.
      destruct (decide (k ∈ ks)), (decide (k ∈ k1 :: ks)) as [Hin|Hn];
        try done.
      * exfalso. apply Hn. by right.
      * apply elem_of_cons in Hin. naive_solver.
Qed.

(** A [forEach] over the keys that reads the value of each key, on an
    object without duplicate keys, visits its entries. *)
Lemma foldl_keys_entries {A} (F : string → Value → A → A) (a : A) o :
  NoDup (obj_keys o) →
  foldl (λ acc key_i, F key_i (obj_get key_i o) acc) a (obj_keys o)
  = foldl (λ acc p, F p.1 p.2 acc) a o.
Proof.
  intros Hnd.
  cut (∀ l a, l ⊆ o →
         foldl (λ acc key_i, F key_i (obj_get key_i o) acc) a l.*1
         = foldl (λ acc p, F p.1 p.2 acc) a l).
  { intros H. by apply H. }
  induction l as [|[k v] l IH]; intros a' Hl; simpl; [done|].
  rewrite (obj_get_NoDup k v o) by (done || apply Hl; left).
  apply IH. intros p Hp. apply Hl. by right.
Qed.

(** *** Assignment, [in] and property reads *)

Lemma obj_put_set k v o :
  k ≠ "__proto__" ∨ k ∈ obj_keys o → obj_put k v o = obj_set k v o.
Proof.
  unfold obj_put, obj_set. destruct (obj_has k o) eqn:Hhas; [done|].
  apply obj_has_false in Hhas. intros [Hne|Hin]; [|done].
  by rewrite bool_decide_eq_false_2.
Qed.

Lemma obj_put_proto v o :
  "__proto__" ∉ obj_keys o → obj_put "__proto__" v o = o.
Proof.
  intros Hn. unfold obj_put. apply obj_has_false in Hn. by rewrite Hn.
Qed.

Lemma elem_of_obj_keys_put k k' v o :
  k' ∈ obj_keys (obj_put k v o)
  ↔ (k' = k ∧ k ≠ "__proto__") ∨ k' ∈ obj_keys o.
Proof.
  destruct (decide (k ∈ obj_keys o)) as [Hin|Hn].
  - rewrite obj_put_set by auto. rewrite elem_of_obj_keys_set. naive_solver.
  - destruct (decide (k = "__proto__")) as [->|Hne].
    + rewrite obj_put_proto by done. naive_solver.
    + rewrite obj_put_set by auto. rewrite elem_of_obj_keys_set. naive_solver.
Qed.

Lemma wf_obj_put k v o : wf_obj o → wf_obj (obj_put k v o).
Proof.
  intros Ho. unfold obj_put. destruct (obj_has k o) eqn:Hhas.
  - generalize (wf_obj_set k v o Ho). unfold obj_set. by rewrite Hhas.
  - case_bool_decide; [done|].
    generalize (wf_obj_set k v o Ho). unfold obj_set. by rewrite Hhas.
Qed.

Lemma obj_lookup_put k v o :
  k ≠ "__proto__" ∨ k ∈ obj_keys o → obj_lookup k (obj_put k v o) = Some v.
Proof. intros H. rewrite obj_put_set by done. apply obj_lookup_set. Qed.

Lemma obj_lookup_put_ne k k' v o :
  k ≠ k' → obj_lookup k' (obj_put k v o) = obj_lookup k' o.
Proof.
  intros Hne. unfold obj_put. destruct (obj_has k o).
  - by apply obj_lookup_overwrite_ne.
  - case_bool_decide; [done|]. by apply obj_lookup_insert_ne.
Qed.

Lemma obj_delete_put k v o : obj_delete k (obj_put k v o) = obj_delete k o.
Proof.
  unfold obj_put. destruct (obj_has k o).
  - apply obj_delete_overwrite.
  - case_bool_decide; [done|]. apply obj_delete_insert.
Qed.

Lemma obj_delete_all_put ks k v o :
  wf_obj o → k ∈ ks →
  obj_delete_all ks (obj_put k v o) = obj_delete_all ks o.
Proof.
  intros Ho Hin.
  destruct (decide (k ≠ "__proto__" ∨ k ∈ obj_keys o)) as [Hk|Hk].
  - rewrite obj_put_set by done. rewrite obj_delete_all_set by done.
    by rewrite decide_True.
  - assert (k = "__proto__") as -> by (apply dec_stable; tauto).
    rewrite obj_put_proto; [done|tauto].
Qed.

(** A sequence of assignments to a record without an own ["__proto__"]
    is the sequence of definitions that leaves ["__proto__"] out. *)
Lemma foldl_obj_put (l : Secret) o :
  "__proto__" ∉ obj_keys o →
  foldl (λ acc p, obj_put p.1 p.2 acc) o l
  = foldl (λ acc p, obj_set p.1 p.2 acc) o
          (filter (λ p, p.1 ≠ "__proto__") l).
Proof.
  revert o. induction l as [|[k v] l IH]; intros o Ho; [done|].
  rewrite filter_cons. simpl. destruct (decide (k ≠ "__proto__")) as [Hne|He].
  - simpl. rewrite obj_put_set by auto. apply IH.
    rewrite elem_of_obj_keys_set. naive_solver.
  - apply dec_stable in He as ->. rewrite obj_put_proto by done. by apply IH.
Qed.

Lemma obj_delete_filter k o : obj_delete k o = filter (λ p, p.1 ≠ k) o.
Proof. done. Qed.

Lemma obj_in_own k o : k ∈ obj_keys o → obj_in k o = true.
Proof. intros Hin. unfold obj_in. apply obj_has_true in Hin. by rewrite Hin. Qed.

Lemma obj_in_false k o :
  obj_in k o = false ↔ (k ∉ obj_keys o) ∧ (k ∉ object_prototype_names).
Proof.
  unfold obj_in, inherited. rewrite orb_false_iff, obj_has_false.
  by rewrite bool_decide_eq_false.
Qed.

Lemma obj_get_own k v o : obj_lookup k o = Some v → obj_get k o = v.
Proof. unfold obj_get. by intros ->. Qed.

End ObjectFacts.


(** ** Renaming a key *)

Section RenameFacts.

Implicit Types (o : Secret) (k key newKey : string) (v : Value).

Lemma obj_keys_renamed key newKey f o :
  obj_keys (renamed key newKey f o)
  = (λ k, if decide (k = key) then newKey else k) <$> obj_keys o.
Proof.
  unfold obj_keys, renamed. rewrite <-!list_fmap_compose.
  apply list_fmap_ext. intros _ [k v] _. simpl. by case_decide.
Qed.

Lemma NoDup_obj_keys_renamed key newKey f o :
  NoDup (obj_keys o) → newKey = key ∨ newKey ∉ obj_keys o →
  NoDup (obj_keys (renamed key newKey f o)).
Proof.
  intros Hnd Hnew. rewrite obj_keys_renamed.
  apply NoDup_fmap_2_strong; [|done].
  intros x y Hx Hy. repeat case_decide; naive_solver.
Qed.

(** Renaming between keys that are not array indices keeps the
    enumeration order. *)
Lemma js_ordered_renamed key newKey f o :
  array_index key = None → array_index newKey = None →
  js_ordered o → js_ordered (renamed key newKey f o).
Proof.
  intros Hkey Hnew. unfold js_ordered. rewrite obj_keys_renamed.
  apply StronglySorted_fmap. intros x y. unfold key_le, key_leb.
  repeat case_decide; subst; by rewrite ?Hkey, ?Hnew.
Qed.

(** The refilling of [renameKey] defines the renamed entries one by
    one, but for an entry under ["__proto__"], whose assignment is
    lost. *)
Lemma renameKey_foldl key newKey o :
  wf_obj o →
  Reducers.renameKey key newKey o
  = foldl (λ acc p, obj_set p.1 p.2 acc) []
          (obj_delete "__proto__" (renamed key newKey id o)).
Proof.
  intros Ho. unfold Reducers.renameKey. rewrite obj_spread_wf by done.
  rewrite obj_delete_all_keys by done.
  rewrite (foldl_keys_entries
             (λ k v acc, obj_put (if decide (k = key) then newKey else k) v acc))
    by apply Ho.
  rewrite obj_delete_filter, <-foldl_obj_put by apply not_elem_of_nil.
  unfold renamed. rewrite foldl_fmap. clear Ho.
  generalize (@nil (string * Value)).
  induction o as [|[k v] o IH]; intros acc; simpl; [done|].
  rewrite IH. by case_decide.
Qed.

Lemma renameKey_wf key newKey o :
  wf_obj o → wf_obj (Reducers.renameKey key newKey o).
Proof.
  intros Ho. rewrite renameKey_foldl by done.
  apply (wf_obj_foldl_set fst snd), wf_obj_nil.
Qed.

(** When the renamed entries still form a well-formed object, renaming
    is the rewriting in place, less the entry under ["__proto__"]. *)
Lemma renameKey_delete_proto key newKey o :
  wf_obj o → wf_obj (renamed key newKey id o) →
  Reducers.renameKey key newKey o
  = obj_delete "__proto__" (renamed key newKey id o).
Proof.
  intros Ho Hr. rewrite renameKey_foldl by done.
  by rewrite foldl_obj_set_app by by apply wf_obj_delete.
Qed.

Lemma renameKey_in_place key newKey o :
  wf_obj o → wf_obj (renamed key newKey id o) →
  "__proto__" ∉ obj_keys (renamed key newKey id o) →
  Reducers.renameKey key newKey o = renamed key newKey id o.
Proof.
  intros Ho Hr Hp. rewrite renameKey_delete_proto by done.
  by apply obj_delete_absent.
Qed.

Lemma obj_delete_all_foldl_set ks (l : Secret) o :
  wf_obj o →
  obj_delete_all ks (foldl (λ acc p, obj_set p.1 p.2 acc) o l)
  = foldl (λ acc p, obj_set p.1 p.2 acc) (obj_delete_all ks o)
          (filter (λ p, p.1 ∉ ks) l).
Proof.
  revert o. induction l as [|[k v] l IH]; intros o Ho; simpl; [done|].
  rewrite IH by by apply wf_obj_set.
  rewrite obj_delete_all_set by done. rewrite filter_cons. simpl.
  destruct (decide (k ∈ ks)), (decide (k ∉ ks)); done.
Qed.

Lemma filter_renamed key newKey f (ks : list string) o :
  key ∈ ks → newKey ∈ ks →
  filter (λ p, p.1 ∉ ks) (renamed key newKey f o) = filter (λ p, p.1 ∉ ks) o.
Proof.
  intros Hkey Hnew. unfold renamed.
  induction o as [|[k v] o IH]; [done|].
  rewrite fmap_cons, !filter_cons. simpl. rewrite IH.
  destruct (decide (k = key)) as [->|Hne]; simpl; [|done].
  destruct (decide (newKey ∉ ks)), (decide (key ∉ ks)); done.
Qed.

(** Whatever the two keys, renaming leaves the other entries as they
    were, values and relative order, but for an entry under
    ["__proto__"], which it drops. *)
Lemma renameKey_other_entries_but_proto key newKey o :
  wf_obj o →
  obj_delete_all [key; newKey] (Reducers.renameKey key newKey o)
  = obj_delete "__proto__" (obj_delete_all [key; newKey] o).
Proof.
  intros Ho. rewrite renameKey_foldl by done.
  rewrite obj_delete_all_foldl_set by apply wf_obj_nil.
  rewrite obj_delete_all_nil.
  rewrite !obj_delete_filter, !list_filter_filter.
  rewrite (list_filter_iff _ (λ p, p.1 ≠ "__proto__" ∧ p.1 ∉ [key; newKey]))
    by naive_solver.
  rewrite <-!list_filter_filter.
  rewrite filter_renamed by (rewrite !elem_of_cons; auto).
  rewrite <-obj_delete_all_filter, <-obj_delete_filter.
  change (foldl (λ acc p, obj_set p.1 p.2 acc) [] ?x) with (obj_spread x).
  by apply obj_spread_wf, wf_obj_delete, wf_obj_delete_all.
Qed.

Lemma renameKey_other_entries key newKey o :
  wf_obj o → "__proto__" ∉ obj_keys o →
  obj_delete_all [key; newKey] (Reducers.renameKey key newKey o)
  = obj_delete_all [key; newKey] o.
Proof.
  intros Ho Hp. rewrite renameKey_other_entries_but_proto by done.
  apply obj_delete_absent. rewrite elem_of_obj_keys_delete_all. tauto.
Qed.

Lemma renamed_cons key newKey f k v o :
  renamed key newKey f ((k, v) :: o)
  = (if decide (k = key) then (newKey, f v) else (k, v))
      :: renamed key newKey f o.
Proof. done. Qed.

Lemma elem_of_obj_keys_renamed key newKey f o :
  key ∈ obj_keys o → newKey ∈ obj_keys (renamed key newKey f o).
Proof.
  intros Hin. rewrite obj_keys_renamed. apply list_elem_of_fmap.
  exists key. by rewrite decide_True.
Qed.

Lemma renamed_absent key newKey f o :
  key ∉ obj_keys o → renamed key newKey f o = o.
Proof.
  induction o as [|[k v] o IH]; [done|]. rewrite renamed_cons.
  unfold obj_keys in *. rewrite fmap_cons, not_elem_of_cons. simpl.
  intros [? ?]. rewrite decide_False by done. by rewrite IH.
Qed.

Lemma obj_overwrite_renamed key newKey v o :
  NoDup (obj_keys (renamed key newKey id o)) → key ∈ obj_keys o →
  obj_overwrite newKey v (renamed key newKey id o)
  = renamed key newKey (λ _, v) o.
Proof.
  induction o as [|[k1 v1] o IH]; [by rewrite elem_of_nil|].
  rewrite !renamed_cons.
  destruct (decide (k1 = key)) as [->|Hne]; simpl.
  - intros [Hhd _]%NoDup_cons _. rewrite decide_True by done. f_equal.
    assert (key ∉ obj_keys o) as Habs.
    { intros Hin. by apply Hhd, elem_of_obj_keys_renamed. }
    by rewrite !renamed_absent.
  - intros [Hhd Hnd]%NoDup_cons [?|Hin]%elem_of_cons; [done|].
    rewrite decide_False.
    + f_equal. by apply IH.
    + intros ->. by apply Hhd, elem_of_obj_keys_renamed.
Qed.

Lemma obj_set_renamed key newKey v o :
  NoDup (obj_keys (renamed key newKey id o)) → key ∈ obj_keys o →
  obj_set newKey v (renamed key newKey id o) = renamed key newKey (λ _, v) o.
Proof.
  intros Hnd Hin. unfold obj_set.
  assert (obj_has newKey (renamed key newKey id o) = true) as ->
    by by apply obj_has_true, elem_of_obj_keys_renamed.
  by apply obj_overwrite_renamed.
Qed.

End RenameFacts.

(** ** The reducers on a loaded secret *)

Lemma loaded_inv st :
  loaded st →
  ∃ s swm, st = Some s ∧ s.(secretWithMetadata) = Some swm
           ∧ current_secret st = swm.(secret)
           ∧ current_hiddenKeys st = s.(hiddenKeys).
Proof.
  intros (s & swm & -> & Hswm). exists s, swm. simpl. by rewrite Hswm.
Qed.

Lemma editSecretStarted_loaded p st :
  loaded st →
  ∃ st', Reducers.editSecretStarted p st = Returned st'
         ∧ loaded st'
         ∧ current_secret st'
           = (Reducers.applyEdit p (current_secret st) (current_hiddenKeys st)).1
         ∧ current_hiddenKeys st'
           = (Reducers.applyEdit p (current_secret st) (current_hiddenKeys st)).2.
Proof.
  intros (s & swm & -> & Hswm & -> & ->)%loaded_inv. simpl. rewrite Hswm.
  destruct (Reducers.applyEdit p (secret swm) (hiddenKeys s)) as [s' h'].
  eexists. split; [done|]. simpl. split; [|done]. by eexists _, _.
Qed.

(** ** Edits and the other entries of the record *)

(** C1, amended.  An edit of the key/value record through
    [editSecretStarted] leaves every entry whose key the edit does not
    name (as key or as new key) with its value and at its place relative
    to the others; for the two renames this is for a record without a
    key ["__proto__"] and names other than ["__proto__"].  On such a
    record, renaming a present key [key] to a [newKey] that is not
    another key of the record, neither name being an array index,
    rewrites the entry in place: [newKey] stands where [key] stood, with
    the value of [key] (or the new value), and every other entry is
    where it was. *)
Theorem editSecretStarted_keeps_other_entries (p : EditSecretParams) (st : State) :
  loaded st →
  wf_obj (current_secret st) →
  is_key_value_edit p = true →
  is_rename p = false
  ∨ ("__proto__" ∉ obj_keys (current_secret st)) ∧ "__proto__" ∉ edit_keys p →
  ∃ st',
    Reducers.editSecretStarted p st = Returned st'
    ∧ obj_delete_all (edit_keys p) (current_secret st')
      = obj_delete_all (edit_keys p) (current_secret st)
    ∧ (∀ k, k ∉ edit_keys p →
            obj_lookup k (current_secret st') = obj_lookup k (current_secret st))
    ∧ (∀ key newKey,
         key ∈ obj_keys (current_secret st) →
         newKey = key ∨ newKey ∉ obj_keys (current_secret st) →
         array_index key = None →
         array_index newKey = None →
         (p = RenameKey key newKey →
          current_secret st' = renamed key newKey id (current_secret st))
         ∧ (∀ newValue,
              p = RenameKeyAndUpdateValue key newKey newValue →
              current_secret st'
              = renamed key newKey (λ _, VString newValue) (current_secret st))).
Proof.
  intros Hl Hwf Hkv Hproto.
  destruct (editSecretStarted_loaded p st Hl) as (st' & Hred & _ & Hs' & _).
  exists st'. split; [done|]. rewrite Hs'. clear Hs' Hred st'.
  set (o := current_secret st) in *. set (h := current_hiddenKeys st).
  assert (obj_delete_all (edit_keys p) (Reducers.applyEdit p o h).1
          = obj_delete_all (edit_keys p) o) as Hothers.
  { destruct p as [key value|key newKey|key newKey newValue|key|ty key];
      try done; cbn [Reducers.applyEdit edit_keys fst].
    - cbn [obj_delete_all foldl]. by rewrite obj_delete_put.
    - destruct Hproto as [?|[Hproto _]]; [done|].
      by apply renameKey_other_entries.
    - destruct Hproto as [?|[Hproto _]]; [done|].
      rewrite <-(renameKey_other_entries key newKey o) by done.
      apply obj_delete_all_put; [by apply renameKey_wf|].
      rewrite !elem_of_cons. auto.
    - cbn [obj_delete_all foldl]. by rewrite obj_delete_idemp. }
  split; [done|]. split.
  - intros k Hk.
    rewrite <-(obj_lookup_delete_all_ne (edit_keys p) k (Reducers.applyEdit p o h).1)
      by done.
    rewrite Hothers. by apply obj_lookup_delete_all_ne.
  - intros key newKey Hin Hnew Hkey HnewKey.
    assert (wf_obj (renamed key newKey id o)) as Hr.
    { split.
      - by apply NoDup_obj_keys_renamed; [apply Hwf|].
      - apply js_ordered_renamed; [done..|apply Hwf]. }
    assert ("__proto__" ∉ obj_keys o → newKey ≠ "__proto__" →
            "__proto__" ∉ obj_keys (renamed key newKey id o)) as Hpr.
    { intros Hp Hne. rewrite obj_keys_renamed.
      intros (k & Hk & Hko)%list_elem_of_fmap. case_decide; congruence. }
    split.
    + intros ->. destruct Hproto as [?|[Hp Hne]]; [done|].
      cbn [edit_keys] in Hne. rewrite !not_elem_of_cons in Hne.
      cbn [Reducers.applyEdit fst]. apply renameKey_in_place; [done..|].
      apply Hpr; [done|]. intros ->. tauto.
    + intros newValue ->. destruct Hproto as [?|[Hp Hne]]; [done|].
      cbn [edit_keys] in Hne. rewrite !not_elem_of_cons in Hne.
      assert (newKey ≠ "__proto__") as Hnew' by (intros ->; tauto).
      cbn [Reducers.applyEdit fst].
      rewrite renameKey_in_place by auto.
      rewrite obj_put_set by auto.
      apply obj_set_renamed; [apply Hr|done].
Qed.

Lemma sample_state_loaded o h b : loaded (sample_state o h b).
Proof. by eexists _, _. Qed.

Lemma editSecretStarted_keeps_other_entries_witness :
  ∃ st',
    Reducers.editSecretStarted (RenameKey "a" "c")
      (sample_state [("a", VString "1"); ("b", VString "2")] [] false)
    = Returned st'
    ∧ current_secret st' = [("c", VString "1"); ("b", VString "2")].
Proof.
  destruct (editSecretStarted_keeps_other_entries (RenameKey "a" "c")
              (sample_state [("a", VString "1"); ("b", VString "2")] [] false))
    as (st' & Hred & _ & _ & Hren).
  - apply sample_state_loaded.
  - decide_by_computation.
  - reflexivity.
  - right. split; decide_by_computation.
  - exists st'. split; [exact Hred|].
    destruct (Hren "a" "c") as [Hrename _].
    + decide_by_computation.
    + right. decide_by_computation.
    + reflexivity.
    + reflexivity.
    + exact (Hrename eq_refl).
Defined.

(** C1 as stated fails where the new name is taken: renaming ["b"] to
    a key ["a"] that is already in the record overwrites the value of
    ["a"] and drops an entry. *)
Lemma renaming_not_always_in_place :
  Reducers.editSecretStarted (RenameKey "b" "a")
    (sample_state [("a", VString "1"); ("b", VString "2")] [] false)
  = Returned (sample_state [("a", VString "2")] [] true)
  ∧ ¬ renaming_always_in_place.
Proof.
  split; [vm_compute; reflexivity|].
  intros H.
  specialize (H (sample_state [("a", VString "1"); ("b", VString "2")] [] false)
                (sample_state [("a", VString "2")] [] true) "b" "a").
  assert (current_secret (sample_state [("a", VString "2")] [] true)
          = renamed "b" "a" id [("a", VString "1"); ("b", VString "2")]) as Habs.
  { apply H.
    - apply sample_state_loaded.
    - decide_by_computation.
    - decide_by_computation.
    - vm_compute; reflexivity. }
  vm_compute in Habs. discriminate Habs.
Qed.

(** ** Hidden keys and declared keys *)

Lemma elem_of_obj_keys_foldl_set {A} (f : A → string) (g : A → Value)
    (l : list A) (o : Secret) (k : string) :
  k ∈ obj_keys (foldl (λ acc x, obj_set (f x) (g x) acc) o l)
  ↔ k ∈ obj_keys o ∨ k ∈ f <$> l.
Proof.
  revert o. induction l as [|x l IH]; intros o; simpl.
  - rewrite elem_of_nil. naive_solver.
  - rewrite IH, elem_of_obj_keys_set, elem_of_cons. naive_solver.
Qed.

Lemma elem_of_obj_keys_spread (o : Secret) (k : string) :
  k ∈ obj_keys (obj_spread o) ↔ k ∈ obj_keys o.
Proof.
  unfold obj_spread. rewrite (elem_of_obj_keys_foldl_set fst snd).
  unfold obj_keys at 1. simpl. rewrite elem_of_nil. naive_solver.
Qed.

Lemma elem_of_obj_keys_foldl_put {A} (f : A → string) (g : A → Value)
    (l : list A) (o : Secret) (k : string) :
  k ∈ obj_keys (foldl (λ acc x, obj_put (f x) (g x) acc) o l)
  ↔ k ∈ obj_keys o ∨ (k ≠ "__proto__" ∧ k ∈ f <$> l).
Proof.
  revert o. induction l as [|x l IH]; intros o; simpl.
  - rewrite elem_of_nil. naive_solver.
  - rewrite IH, elem_of_obj_keys_put, elem_of_cons. naive_solver.
Qed.

(** The keys [renameKey] leaves: the renamed keys, but ["__proto__"]. *)
Lemma elem_of_obj_keys_renameKey (key newKey : string) (o : Secret) (k : string) :
  k ∈ obj_keys (Reducers.renameKey key newKey o)
  ↔ k ≠ "__proto__"
    ∧ ∃ key_i, key_i ∈ obj_keys o
               ∧ k = if decide (key_i = key) then newKey else key_i.
Proof.
  unfold Reducers.renameKey.
  rewrite (elem_of_obj_keys_foldl_put
             (λ key_i, if decide (key_i = key) then newKey else key_i)
             (λ key_i, obj_get key_i (obj_spread o))).
  rewrite elem_of_obj_keys_delete_all, list_elem_of_fmap.
  setoid_rewrite elem_of_obj_keys_spread. naive_solver.
Qed.

Lemma applyEdit_keeps_hidden_subset (p : EditSecretParams) (st : State) :
  hidden_subset st →
  careful st (editSecretStarted p) →
  (Reducers.applyEdit p (current_secret st) (current_hiddenKeys st)).2
  ⊆ obj_keys (Reducers.applyEdit p (current_secret st) (current_hiddenKeys st)).1.
Proof.
  unfold hidden_subset. intros Hsub Hok k.
  destruct p as [key value|key newKey|key newKey newValue|key|[] key];
    simpl in *; intros Hk.
  - apply elem_of_obj_keys_put. auto.
  - destruct Hok as [Hproto Hok]. apply elem_of_obj_keys_renameKey.
    split; [by intros ->|]. exists k. split; [auto|].
    case_decide; naive_solver.
  - destruct Hok as [Hproto Hok]. apply elem_of_obj_keys_put. right.
    apply elem_of_obj_keys_renameKey.
    split; [by intros ->|]. exists k. split; [auto|].
    case_decide; naive_solver.
  - apply elem_of_obj_keys_delete. split; [|auto]. by intros ->.
  - apply elem_of_app in Hk as [?|Hk]; [auto|].
    apply list_elem_of_singleton in Hk as ->. done.
  - apply list_elem_of_filter in Hk as [_ ?]. auto.
Qed.

Lemma reducer_keeps_hidden_subset (now : string) (st st' : State) (a : Action) :
  hidden_subset st →
  careful st a →
  reducer now st a = Returned st' →
  hidden_subset st'.
Proof.
  intros Hsub Hok Hred. destruct a as [d b|swm h|p|]; simpl in Hred.
  - injection Hred as <-. unfold hidden_subset. simpl. set_solver.
  - destruct st as [s|]; [|done]. injection Hred as <-.
    unfold hidden_subset. simpl. exact Hok.
  - destruct st as [s|]; [|done]. simpl in Hred.
    destruct (secretWithMetadata s) as [swm|] eqn:Hswm; [|done].
    destruct (editSecretStarted_loaded p (Some s)) as (st1 & Hred1 & _ & Hs & Hh).
    { by eexists _, _. }
    simpl in Hred1. rewrite Hswm in Hred1.
    rewrite Hred1 in Hred. injection Hred as <-.
    unfold hidden_subset. rewrite Hs, Hh.
    by apply applyEdit_keeps_hidden_subset.
  - destruct st as [s|]; [|done]. simpl in Hred.
    destruct (secretWithMetadata s) as [swm|] eqn:Hswm; [|done].
    injection Hred as <-. unfold hidden_subset in *. simpl in *.
    by rewrite Hswm in Hsub.
Qed.

(** C2, amended.  The reducers do not check the hidden keys against the
    record.  The hidden keys are keys of the secret on display in every
    state reached by dispatches that keep them so: [openCompleted] with
    hidden keys of the loaded secret, hiding a declared key, removing or
    renaming (to another key) a key that is not hidden, renaming only
    while ["__proto__"] is not hidden, and any [openStarted],
    [addOrOverwriteKeyValue], reveal and [editSecretCompleted]. *)
Theorem hidden_subset_when_careful (st : State) :
  reachable_by careful st → hidden_subset st.
Proof.
  induction 1 as [|st a now st' _ IH Hok Hred].
  - unfold hidden_subset. simpl. set_solver.
  - by eapply reducer_keeps_hidden_subset.
Qed.

Lemma reachable_sample_state allowed (o : Secret) :
  allowed None (openStarted "/projects/demo" "credentials") →
  allowed sample_opening
    (openCompleted {| secret := o; metadata := sample_metadata |} []) →
  reachable_by allowed (sample_state o [] false).
Proof.
  intros H1 H2.
  apply (reachable_step allowed sample_opening
           (openCompleted {| secret := o; metadata := sample_metadata |} [])
           "2022-03-01T10:00:01.000Z");
    [|done..].
  apply (reachable_step allowed None
           (openStarted "/projects/demo" "credentials")
           "2022-03-01T10:00:00.000Z"); [|done..].
  apply reachable_init.
Qed.

Lemma hidden_subset_when_careful_witness :
  hidden_subset
    (sample_state [("user", VString "alice"); ("password", VString "s3cret")]
                  ["password"] true).
Proof.
  apply hidden_subset_when_careful.
  apply (reachable_step _
           (sample_state [("user", VString "alice");
                          ("password", VString "s3cret")] [] false)
           (editSecretStarted (HideOrRevealKey hide "password"))
           "2022-03-01T10:00:02.000Z").
  - apply reachable_sample_state.
    + exact I.
    + simpl. apply list_subseteq_nil.
  - simpl. decide_by_computation.
  - reflexivity.
Defined.

(** C2 as stated fails: hiding the key ["password"] and then removing it
    leaves a hidden key that the record does not declare. *)
Lemma hidden_subset_not_invariant :
  ¬ (∀ st, reachable st → hidden_subset st).
Proof.
  intros H.
  assert (reachable
            (sample_state [("user", VString "alice")] ["password"] true))
    as Hreach.
  { apply (reachable_step _
             (sample_state [("user", VString "alice");
                            ("password", VString "s3cret")] ["password"] true)
             (editSecretStarted (RemoveKeyValue "password"))
             "2022-03-01T10:00:03.000Z");
      [|reflexivity..].
    apply (reachable_step _
             (sample_state [("user", VString "alice");
                            ("password", VString "s3cret")] [] false)
             (editSecretStarted (HideOrRevealKey hide "password"))
             "2022-03-01T10:00:02.000Z");
      [|reflexivity..].
    by apply reachable_sample_state. }
  apply H in Hreach. unfold hidden_subset in Hreach. simpl in Hreach.
  assert ("password" ∈ ["user"]) as Hin by (apply Hreach; left).
  revert Hin. apply (bool_decide_unpack _). vm_compute. exact I.
Qed.

(** ** Hiding and revealing a key *)

Lemma editSecretStarted_hide (key : string) (st : State) :
  loaded st →
  ∃ st', Reducers.editSecretStarted (HideOrRevealKey hide key) st = Returned st'
         ∧ loaded st'
         ∧ current_secret st' = current_secret st
         ∧ current_hiddenKeys st' = current_hiddenKeys st ++ [key].
Proof.
  intros Hl.
  destruct (editSecretStarted_loaded (HideOrRevealKey hide key) st Hl)
    as (st' & ? & ? & ? & ?).
  by exists st'.
Qed.

(** C6.  On a state with a loaded secret, hiding [key] makes the set of
    hidden keys the former set with [key] added, and leaves the record
    as it was, hence the value of every key; when [key] was hidden
    already the set of hidden keys is the same as before. *)
Theorem hide_adds_to_hidden_set (key : string) (st : State) :
  loaded st →
  ∃ st',
    Reducers.editSecretStarted (HideOrRevealKey hide key) st = Returned st'
    ∧ (list_to_set (current_hiddenKeys st') : gset string)
      = {[key]} ∪ list_to_set (current_hiddenKeys st)
    ∧ current_secret st' = current_secret st
    ∧ (∀ k, obj_lookup k (current_secret st') = obj_lookup k (current_secret st))
    ∧ (key ∈ current_hiddenKeys st →
       (list_to_set (current_hiddenKeys st') : gset string)
       = list_to_set (current_hiddenKeys st)).
Proof.
  intros Hl. destruct (editSecretStarted_hide key st Hl)
    as (st' & Hred & _ & Hs & Hh).
  exists st'. rewrite Hs, Hh, list_to_set_app_L. simpl.
  repeat split; [done| |].
  - set_solver.
  - intros Hin. apply (elem_of_list_to_set (C := gset string)) in Hin.
    set_solver.
Qed.

Lemma hide_adds_to_hidden_set_witness :
  ∃ st',
    Reducers.editSecretStarted (HideOrRevealKey hide "password")
      (sample_state [("user", VString "alice"); ("password", VString "s3cret")]
                    ["password"] false)
    = Returned st'
    ∧ (list_to_set (current_hiddenKeys st') : gset string) = {["password"]}
    ∧ current_secret st'
      = [("user", VString "alice"); ("password", VString "s3cret")].
Proof.
  destruct (hide_adds_to_hidden_set "password"
              (sample_state [("user", VString "alice");
                             ("password", VString "s3cret")]
                            ["password"] false))
    as (st' & Hred & _ & Hs & _ & Hsame).
  - apply sample_state_loaded.
  - exists st'. split; [exact Hred|]. split; [|exact Hs].
    rewrite Hsame.
    + simpl. apply union_empty_r_L.
    + simpl. left.
Defined.

(** C9.  On a state with a loaded secret, reveal keeps of the hidden
    keys, in their order, exactly the entries other than [key], and
    revealing again changes nothing; hide appends [key] whether or not it
    is there, so that hiding a hidden key leaves it twice in the list and
    hiding twice is not hiding once. *)
Theorem reveal_filters_hide_appends (key : string) (st : State) :
  loaded st →
  (∃ st',
     Reducers.editSecretStarted (HideOrRevealKey reveal key) st = Returned st'
     ∧ current_hiddenKeys st'
       = filter (λ key_i, key_i ≠ key) (current_hiddenKeys st)
     ∧ (key ∉ current_hiddenKeys st')
     ∧ current_hiddenKeys st' `sublist_of` current_hiddenKeys st
     ∧ Reducers.editSecretStarted (HideOrRevealKey reveal key) st' = Returned st')
  ∧ (∃ st' st'',
       Reducers.editSecretStarted (HideOrRevealKey hide key) st = Returned st'
       ∧ current_hiddenKeys st' = current_hiddenKeys st ++ [key]
       ∧ (key ∈ current_hiddenKeys st → ¬ NoDup (current_hiddenKeys st'))
       ∧ Reducers.editSecretStarted (HideOrRevealKey hide key) st' = Returned st''
       ∧ current_hiddenKeys st'' = current_hiddenKeys st ++ [key; key]
       ∧ st'' ≠ st').
Proof.
  intros Hl. split.
  - destruct Hl as (s & swm & -> & Hswm). simpl. rewrite Hswm. simpl.
    eexists. split; [done|]. simpl. split; [done|].
    split; [|split].
    + rewrite list_elem_of_filter. naive_solver.
    + apply sublist_filter.
    + rewrite list_filter_filter.
      do 3 f_equal. apply list_filter_iff. naive_solver.
  - destruct (editSecretStarted_hide key st Hl) as (st' & Hred & Hl' & _ & Hh).
    destruct (editSecretStarted_hide key st' Hl') as (st'' & Hred' & _ & _ & Hh').
    exists st', st''. rewrite Hh', Hh, <-app_assoc. simpl.
    repeat split; try done.
    + intros Hin Hnd. apply NoDup_app in Hnd as (_ & Hnd & _).
      apply (Hnd key Hin). left.
    + intros ->. rewrite Hh in Hh'.
      apply (f_equal length) in Hh'. rewrite !length_app in Hh'. simpl in Hh'. lia.
Qed.

Lemma reveal_filters_hide_appends_witness :
  ∃ st',
    Reducers.editSecretStarted (HideOrRevealKey hide "password")
      (sample_state [("password", VString "s3cret")] ["password"] false)
    = Returned st'
    ∧ current_hiddenKeys st' = ["password"; "password"].
Proof.
  destruct (reveal_filters_hide_appends "password"
              (sample_state [("password", VString "s3cret")] ["password"] false))
    as [_ (st' & _ & Hred & Hh & _)].
  - apply sample_state_loaded.
  - exists st'. split; [exact Hred|exact Hh].
Defined.

(** ** Completion of an edit *)

(** Below [2^53] in magnitude the increment of a number is exact. *)
Lemma increment_exact (n : Z) :
  (Z.abs n < 2 ^ 53)%Z → JsNumber.increment n = (n + 1)%Z.
Proof.
  intros Hn. unfold JsNumber.increment, JsNumber.to_double.
  destruct (Z.abs (n + 1) <? 2 ^ 53)%Z eqn:Hlt; [done|].
  apply Z.ltb_ge in Hlt.
  assert (n + 1 = 2 ^ 53)%Z as -> by lia.
  vm_compute; reflexivity.
Qed.

(** C8, amended.  On a state with a loaded secret whose version is
    below [2^53] in magnitude, [editSecretCompleted] adds one to the
    version of the metadata, sets [created_time] to the current time and
    [isBeingUpdated] to false; the record, the hidden keys, the path and
    the rest of the metadata are as before. *)
Theorem editSecretCompleted_frame (now : string) (s : SecretsEditorState)
    (swm : SecretWithMetadata) :
  s.(secretWithMetadata) = Some swm →
  (Z.abs swm.(metadata).(version) < 2 ^ 53)%Z →
  ∃ s' swm',
    Reducers.editSecretCompleted now (Some s) = Returned (Some s')
    ∧ s'.(secretWithMetadata) = Some swm'
    ∧ swm'.(metadata).(version) = (swm.(metadata).(version) + 1)%Z
    ∧ swm'.(metadata).(created_time) = now
    ∧ s'.(isBeingUpdated) = false
    ∧ swm'.(secret) = swm.(secret)
    ∧ s'.(hiddenKeys) = s.(hiddenKeys)
    ∧ s'.(dirPath) = s.(dirPath)
    ∧ s'.(basename) = s.(basename)
    ∧ swm'.(metadata).(other_metadata) = swm.(metadata).(other_metadata).
Proof.
  intros Hswm Hv. simpl. rewrite Hswm. eexists _, _. split; [done|].
  simpl. repeat split. by apply increment_exact.
Qed.

Lemma editSecretCompleted_frame_witness :
  ∃ s' swm',
    Reducers.editSecretCompleted "2022-03-02T08:30:00.000Z"
      (sample_state [("user", VString "alice")] ["user"] true)
    = Returned (Some s')
    ∧ s'.(secretWithMetadata) = Some swm'
    ∧ swm'.(metadata).(version) = 4%Z
    ∧ swm'.(metadata).(created_time) = "2022-03-02T08:30:00.000Z"
    ∧ s'.(isBeingUpdated) = false
    ∧ swm'.(secret) = [("user", VString "alice")]
    ∧ s'.(hiddenKeys) = ["user"].
Proof.
  destruct (editSecretCompleted_frame "2022-03-02T08:30:00.000Z"
              {| dirPath := "/projects/demo";
                 basename := "credentials";
                 secretWithMetadata :=
                   Some {| secret := [("user", VString "alice")];
                           metadata := sample_metadata |};
                 hiddenKeys := ["user"];
                 isBeingUpdated := true |}
              {| secret := [("user", VString "alice")];
                 metadata := sample_metadata |})
    as (s' & swm' & Hred & Hswm & Hv & Ht & Hu & Hs & Hh & _).
  - reflexivity.
  - reflexivity.
  - exists s', swm'.
    exact (conj Hred (conj Hswm (conj Hv (conj Ht (conj Hu (conj Hs Hh)))))).
Defined.

(** C8 as stated fails where a number no longer counts by one: at
    version [2^53] the increment leaves the version as it is. *)
Lemma version_not_always_incremented :
  Reducers.editSecretCompleted "2022-03-02T08:30:00.000Z"
    (Some (state_at_version (2 ^ 53)))
  = Returned (Some {| dirPath := "/projects/demo";
                      basename := "credentials";
                      secretWithMetadata :=
                        Some {| secret := [("user", VString "alice")];
                                metadata :=
                                  {| created_time := "2022-03-02T08:30:00.000Z";
                                     version := 2 ^ 53;
                                     other_metadata := [] |} |};
                      hiddenKeys := [];
                      isBeingUpdated := false |})
  ∧ ¬ version_always_incremented.
Proof.
  split; [vm_compute; reflexivity|].
  intros H.
  destruct (H "2022-03-02T08:30:00.000Z" (state_at_version (2 ^ 53))
              {| secret := [("user", VString "alice")];
                 metadata := {| created_time := "2022-03-01T10:00:00.000Z";
                                version := 2 ^ 53;
                                other_metadata := [] |} |} eq_refl)
    as (s' & swm' & Hred & Hswm & Hv).
  vm_compute in Hred. injection Hred as <-.
  vm_compute in Hswm. injection Hswm as <-.
  vm_compute in Hv. discriminate Hv.
Qed.

(** ** The payload of [put] *)

Lemma applyEdit_wf (p : EditSecretParams) (o : Secret) (h : list string) :
  wf_obj o → wf_obj (Reducers.applyEdit p o h).1.
Proof.
  intros Ho. destruct p as [key value|key newKey|key newKey newValue|key|[] key];
    simpl; auto using wf_obj_put, wf_obj_delete, renameKey_wf.
Qed.

Lemma array_index_extraKey : array_index extraKey = None.
Proof. reflexivity. Qed.

Lemma put_payload_lookup (o : Secret) (h : list string) :
  obj_lookup extraKey (put_payload o h) = Some (ExtraValue h (obj_keys o)).
Proof. apply obj_lookup_set. Qed.

Lemma put_payload_other_entries (o : Secret) (h : list string) :
  wf_obj o →
  obj_delete extraKey (put_payload o h) = obj_delete extraKey o.
Proof.
  intros Ho. unfold put_payload. by rewrite obj_delete_set, obj_spread_wf.
Qed.

Lemma put_payload_absent (o : Secret) (h : list string) :
  wf_obj o → extraKey ∉ obj_keys o →
  put_payload o h = o ++ [(extraKey, ExtraValue h (obj_keys o))].
Proof.
  intros Ho Habs. unfold put_payload, obj_set.
  rewrite obj_spread_wf by done.
  apply obj_has_false in Habs. rewrite Habs.
  apply obj_insert_last, Forall_forall. intros k _.
  apply key_le_named, array_index_extraKey.
Qed.

Lemma put_payload_present (o : Secret) (h : list string) :
  wf_obj o → extraKey ∈ obj_keys o →
  obj_keys (put_payload o h) = obj_keys o.
Proof.
  intros Ho Hin. unfold put_payload, obj_set.
  rewrite obj_spread_wf by done.
  apply obj_has_true in Hin. rewrite Hin. apply obj_keys_overwrite.
Qed.

(** ** The thunk [editCurrentlyShownSecret] *)

Section EditThunkFacts.

Variable now : string.
Variable client : SecretsManagerClient.
Variable currentPath : SecretsEditorState → string.

(** An edit the optimizations catch: nothing is dispatched, nothing is
    sent. *)
Lemma run_edit_optimized_away (p : EditSecretParams) (st : State) :
  loaded st →
  optimized_away p (current_secret st) = true →
  run now client (editCurrentlyShownSecret currentPath p) st
  = {| trace := []; final_state := st; result := Returned tt |}.
Proof.
  intros (s & swm & -> & Hswm & Hs & _)%loaded_inv Hopt. rewrite Hs in Hopt.
  unfold editCurrentlyShownSecret, getSecretCurrentPathAndHiddenKeys.
  simpl. rewrite Hswm. simpl. by rewrite Hopt.
Qed.

(** Any other edit: the reducer runs, the record and the bookkeeping are
    sent; [editSecretCompleted] is dispatched when [put] succeeds, and
    when it fails the call of the missing [actions.errorOcurred]
    rejects the thunk. *)
Lemma run_edit_persisted (p : EditSecretParams) (st : State) :
  loaded st →
  optimized_away p (current_secret st) = false →
  ∃ s1 st2,
    reducer now st (editSecretStarted p) = Returned (Some s1)
    ∧ loaded (Some s1)
    ∧ current_secret (Some s1)
      = (Reducers.applyEdit p (current_secret st) (current_hiddenKeys st)).1
    ∧ current_hiddenKeys (Some s1)
      = (Reducers.applyEdit p (current_secret st) (current_hiddenKeys st)).2
    ∧ reducer now (Some s1) editSecretCompleted = Returned st2
    ∧ let path := currentPath s1 in
      let payload :=
        put_payload (current_secret (Some s1)) (current_hiddenKeys (Some s1)) in
      run now client (editCurrentlyShownSecret currentPath p) st
      = match client.(client_put) path payload with
        | Some error =>
            {| trace := [EvDispatch (editSecretStarted p);
                         EvPut path payload];
               final_state := Some s1;
               result := Thrown |}
        | None =>
            {| trace := [EvDispatch (editSecretStarted p);
                         EvPut path payload;
                         EvDispatch editSecretCompleted];
               final_state := st2;
               result := Returned tt |}
        end.
Proof.
  intros (s & swm & -> & Hswm & Hs & Hh)%loaded_inv Hopt.
  rewrite Hs, Hh in *.
  unfold editCurrentlyShownSecret, getSecretCurrentPathAndHiddenKeys.
  simpl. rewrite Hswm. simpl. rewrite Hopt. simpl. rewrite Hswm.
  destruct (Reducers.applyEdit p (secret swm) (hiddenKeys s)) as [o1 h1].
  simpl. eexists _, _. split; [done|]. split; [by eexists _, _|].
  split; [done|]. split; [done|]. split; [done|].
  by destruct (client_put client _ _).
Qed.

End EditThunkFacts.

(** C3, amended.  For an edit that reaches [put], the secret sent is the
    record on display after the edit with the entry of [".onyxia"] set to
    the hidden keys and the keys of the record in their order: every
    other entry is sent as it is; when the record has no [".onyxia"] key
    this is the record followed by that one extra entry, and when it has
    one the entry is overwritten where it stands and none is added. *)
Theorem put_payload_of_edit (now : string) (client : SecretsManagerClient)
    (currentPath : SecretsEditorState → string)
    (p : EditSecretParams) (st : State) :
  loaded st →
  wf_obj (current_secret st) →
  optimized_away p (current_secret st) = false →
  ∃ st1 path payload,
    reducer now st (editSecretStarted p) = Returned st1
    ∧ filter (λ e, is_put e)
        (run now client (editCurrentlyShownSecret currentPath p) st).(trace)
      = [EvPut path payload]
    ∧ let bookkeeping :=
        ExtraValue (current_hiddenKeys st1) (obj_keys (current_secret st1)) in
      obj_lookup extraKey payload = Some bookkeeping
      ∧ obj_delete extraKey payload = obj_delete extraKey (current_secret st1)
      ∧ (extraKey ∉ obj_keys (current_secret st1) →
         payload = current_secret st1 ++ [(extraKey, bookkeeping)])
      ∧ (extraKey ∈ obj_keys (current_secret st1) →
         obj_keys payload = obj_keys (current_secret st1)).
Proof.
  intros Hl Hwf Hopt.
  destruct (run_edit_persisted now client currentPath p st Hl Hopt)
    as (s1 & st2 & Hred & _ & Hs1 & _ & _ & Hrun).
  assert (wf_obj (current_secret (Some s1))) as Hwf1.
  { rewrite Hs1. by apply applyEdit_wf. }
  eexists (Some s1), _, _. split; [done|]. split.
  - cbv zeta in Hrun. rewrite Hrun. by destruct (client_put client _ _).
  - simpl. split; [apply put_payload_lookup|].
    split; [by apply put_payload_other_entries|].
    split; [by apply put_payload_absent|by apply put_payload_present].
Qed.

Lemma put_payload_of_edit_witness :
  ∃ st1 path payload,
    reducer "2022-03-02T08:30:00.000Z"
      (sample_state [("user", VString "alice")] [] false)
      (editSecretStarted (HideOrRevealKey hide "user"))
    = Returned st1
    ∧ filter (λ e, is_put e)
        (run "2022-03-02T08:30:00.000Z" (sample_client (inl sample_error) None)
             (editCurrentlyShownSecret sample_currentPath
                (HideOrRevealKey hide "user"))
             (sample_state [("user", VString "alice")] [] false)).(trace)
      = [EvPut path payload]
    ∧ obj_lookup extraKey payload
      = Some (ExtraValue (current_hiddenKeys st1)
                (obj_keys (current_secret st1))).
Proof.
  destruct (put_payload_of_edit "2022-03-02T08:30:00.000Z"
              (sample_client (inl sample_error) None) sample_currentPath
              (HideOrRevealKey hide "user")
              (sample_state [("user", VString "alice")] [] false))
    as (st1 & path & payload & Hred & Hput & Hbook & _).
  - apply sample_state_loaded.
  - decide_by_computation.
  - reflexivity.
  - exists st1, path, payload. exact (conj Hred (conj Hput Hbook)).
Defined.

(** C3 as stated fails when the record on display has a [".onyxia"] key
    of its own, here after the user adds one: the secret sent has as
    many entries as the record, the value the user gave is replaced by
    the bookkeeping, and no entry is added. *)
Lemma put_payload_not_always_extended :
  let st := sample_state [("user", VString "alice")] [] false in
  let p := AddOrOverwriteKeyValue ".onyxia" "x" in
  let shown := [("user", VString "alice"); (".onyxia", VString "x")] in
  let bookkeeping := ExtraValue [] ["user"; ".onyxia"] in
  let sent := [("user", VString "alice"); (".onyxia", bookkeeping)] in
  reducer "2022-03-02T08:30:00.000Z" st (editSecretStarted p)
  = Returned (sample_state shown [] true)
  ∧ (run "2022-03-02T08:30:00.000Z" (sample_client (inl sample_error) None)
         (editCurrentlyShownSecret sample_currentPath p) st).(trace)
    = [EvDispatch (editSecretStarted p);
       EvPut "/projects/demo/credentials" sent;
       EvDispatch editSecretCompleted]
  ∧ sent ≠ shown ++ [(".onyxia", bookkeeping)]
  ∧ length sent = length shown.
Proof.
  repeat split; try (vm_compute; reflexivity).
  intros Habs. apply (f_equal length) in Habs. vm_compute in Habs.
  discriminate Habs.
Qed.

(** C7, amended.  While a secret is shown, an edit that the guards under
    [//Optimizations] recognise as changing nothing returns at once:
    nothing is dispatched and nothing is sent.  Every other edit is
    first applied to the state by [editSecretStarted] and then followed
    by one call to [put] and no other call to the store; the only
    dispatch after it is that of [editSecretCompleted], when [put] has
    succeeded. *)
Theorem edit_then_one_put (now : string) (client : SecretsManagerClient)
    (currentPath : SecretsEditorState → string)
    (p : EditSecretParams) (st : State) :
  loaded st →
  let o := run now client (editCurrentlyShownSecret currentPath p) st in
  if optimized_away p (current_secret st)
  then o.(trace) = [] ∧ o.(final_state) = st ∧ o.(result) = Returned tt
  else ∃ st1 path payload,
         reducer now st (editSecretStarted p) = Returned st1
         ∧ o.(trace)
           = EvDispatch (editSecretStarted p)
               :: EvPut path payload
               :: match client.(client_put) path payload with
                  | None => [EvDispatch editSecretCompleted]
                  | Some _ => []
                  end
         ∧ length (filter (λ e, is_network_call e) o.(trace)) = 1.
Proof.
  intros Hl. cbv zeta.
  destruct (optimized_away p (current_secret st)) eqn:Hopt.
  - by rewrite run_edit_optimized_away.
  - destruct (run_edit_persisted now client currentPath p st Hl Hopt)
      as (s1 & st2 & Hred & _ & _ & _ & _ & Hrun).
    cbv zeta in Hrun. rewrite Hrun.
    exists (Some s1), (currentPath s1),
      (put_payload (current_secret (Some s1)) (current_hiddenKeys (Some s1))).
    split; [done|]. by destruct (client_put client _ _).
Qed.

Lemma edit_then_one_put_witness :
  ∃ st1 path payload,
    reducer "2022-03-02T08:30:00.000Z"
      (sample_state [("user", VString "alice")] [] false)
      (editSecretStarted (AddOrOverwriteKeyValue "user" "bob"))
    = Returned st1
    ∧ (run "2022-03-02T08:30:00.000Z" (sample_client (inl sample_error) None)
           (editCurrentlyShownSecret sample_currentPath
              (AddOrOverwriteKeyValue "user" "bob"))
           (sample_state [("user", VString "alice")] [] false)).(trace)
      = EvDispatch (editSecretStarted (AddOrOverwriteKeyValue "user" "bob"))
          :: EvPut path payload
          :: match (sample_client (inl sample_error) None).(client_put)
                     path payload with
             | None => [EvDispatch editSecretCompleted]
             | Some _ => []
             end
    ∧ length
        (filter (λ e, is_network_call e)
           (run "2022-03-02T08:30:00.000Z"
              (sample_client (inl sample_error) None)
              (editCurrentlyShownSecret sample_currentPath
                 (AddOrOverwriteKeyValue "user" "bob"))
              (sample_state [("user", VString "alice")] [] false)).(trace))
      = 1.
Proof.
  apply (edit_then_one_put "2022-03-02T08:30:00.000Z"
           (sample_client (inl sample_error) None) sample_currentPath
           (AddOrOverwriteKeyValue "user" "bob")
           (sample_state [("user", VString "alice")] [] false)).
  apply sample_state_loaded.
Defined.

(** C7 as stated fails: writing to a key the value it already has is an
    edit dispatched through the thunk while a secret is shown, and it is
    followed by no state change and no call to [put]. *)
Lemma edit_without_network_call :
  let st := sample_state [("user", VString "alice")] [] false in
  loaded st
  ∧ run "2022-03-02T08:30:00.000Z" (sample_client (inl sample_error) None)
        (editCurrentlyShownSecret sample_currentPath
           (AddOrOverwriteKeyValue "user" "alice")) st
    = {| trace := []; final_state := st; result := Returned tt |}.
Proof.
  split; [apply sample_state_loaded|]. vm_compute. reflexivity.
Qed.

(** ** The thunk [openSecret] *)

Lemma is_string_array_spec (v : Value) :
  is_string_array v = true ↔ ∃ l, v = VArray (VString <$> l).
Proof.
  split.
  - destruct v as [| | | | |items| |]; try done. simpl.
    induction items as [|x items IH]; simpl.
    + intros _. by exists [].
    + intros [Hx Hitems]%andb_true_iff. destruct x; try done.
      destruct (IH Hitems) as [l Hl]. injection Hl as ->.
      by eexists (_ :: l).
  - intros [l ->]. simpl. induction l; simpl; auto.
Qed.

Lemma as_string_array_strings (l : list string) :
  as_string_array (VArray (VString <$> l)) = l.
Proof. simpl. induction l; simpl; by f_equal. Qed.

Lemma obj_get_array k (o : Secret) items :
  obj_get k o = VArray items → obj_lookup k o = Some (VArray items).
Proof.
  unfold obj_get. destruct (obj_lookup k o); [by intros ->|].
  by destruct (inherited k).
Qed.

(** A read under a name that [Object.prototype] does not have. *)
Lemma obj_get_named k (o : Secret) :
  inherited k = false → obj_get k o = default VUndefined (obj_lookup k o).
Proof. intros Hk. unfold obj_get. rewrite Hk. by destruct (obj_lookup k o). Qed.

Lemma obj_in_spec k (o : Secret) :
  obj_in k o ↔ k ∈ obj_keys o ∨ k ∈ object_prototype_names.
Proof.
  unfold obj_in, inherited. rewrite orb_True, bool_decide_spec.
  by rewrite Is_true_true, obj_has_true.
Qed.

Lemma read_ExtraValue_malformed (secret : Secret) :
  ¬ well_formed_entry secret → read_ExtraValue secret = Thrown.
Proof.
  intros Hmal. unfold read_ExtraValue.
  rewrite (obj_get_named extraKey) by reflexivity.
  destruct (obj_lookup extraKey secret) as [v|] eqn:Hentry; [|done].
  destruct v as [| | | | | |fields|]; try done. simpl.
  destruct (is_string_array (obj_get "hiddenKeys" fields)) eqn:Hh; [|done].
  destruct (is_string_array (obj_get "keysOrdering" fields)) eqn:Hk; [|done].
  apply is_string_array_spec in Hh as [h Hh], Hk as [ko Hk].
  apply obj_get_array in Hh, Hk.
  destruct Hmal. by exists h, ko, fields.
Qed.

Lemma read_ExtraValue_well_formed (secret : Secret) (h ko : list string) :
  ExtraValue_of secret h ko →
  read_ExtraValue secret
  = Returned (h, filter (λ key, key ∈ obj_keys secret
                                ∨ key ∈ object_prototype_names) ko).
Proof.
  intros (fields & Hentry & Hh & Hk). unfold read_ExtraValue.
  rewrite (obj_get_own _ _ _ Hentry). simpl.
  rewrite (obj_get_own _ _ _ Hh), (obj_get_own _ _ _ Hk). simpl.
  assert (forallb typeof_string (VString <$> h) = true) as ->.
  { by apply (is_string_array_spec (VArray _)); exists h. }
  assert (forallb typeof_string (VString <$> ko) = true) as ->.
  { by apply (is_string_array_spec (VArray _)); exists ko. }
  simpl. pose proof (as_string_array_strings h) as Hh'.
  pose proof (as_string_array_strings ko) as Hk'. simpl in Hh', Hk'.
  rewrite Hh', Hk'. do 2 f_equal.
  apply list_filter_iff. intros key. apply obj_in_spec.
Qed.

Section OpenThunkFacts.

Variable now : string.
Variable client : SecretsManagerClient.
Variable secretPath : string.

(** Whatever [get] answers, [openSecret] ends in the call of a creator
    that [actions] does not have: nothing is dispatched after
    [openStarted], and the thunk is rejected. *)
Lemma run_openSecret (dirPath basename : string) (st : State) :
  run now client (openSecret secretPath dirPath basename) st
  = {| trace := [EvDispatch (openStarted dirPath basename);
                 EvGet secretPath];
       final_state :=
         Some {| dirPath := dirPath;
                 basename := basename;
                 secretWithMetadata := None;
                 hiddenKeys := [];
                 isBeingUpdated := true |};
       result := Thrown |}.
Proof. unfold openSecret. simpl. by destruct (client_get client secretPath). Qed.

(** The secret and the hidden keys of that argument. *)
Lemma navigation_argument_displayed (swm : SecretWithMetadata) :
  navigation_argument secretPath swm
  = ({| secret := displayed swm.(secret); metadata := swm.(metadata) |},
     secretPath, (hiddenKeys_and_keysOrdering swm.(secret)).1).
Proof.
  unfold navigation_argument, displayed.
  by destruct (hiddenKeys_and_keysOrdering (secret swm)).
Qed.

End OpenThunkFacts.

(** C5, as the code has it.  The slice makes no action creator
    [errorOcurred]: when [get] fails in [openSecret], or [put] in
    [editCurrentlyShownSecret], the call [actions.errorOcurred(...)] is
    a [TypeError].  No event follows the failed request, no error event
    reaches the store, and the thunk is rejected. *)
Theorem failure_rejects_the_thunk (now : string)
    (client : SecretsManagerClient) (secretPath : string)
    (currentPath : SecretsEditorState → string) :
  (∀ dirPath basename st error,
     client.(client_get) secretPath = inl error →
     let o := run now client (openSecret secretPath dirPath basename) st in
     o.(trace) = [EvDispatch (openStarted dirPath basename);
                  EvGet secretPath]
     ∧ o.(result) = Thrown)
  ∧ (∀ p st,
       loaded st →
       optimized_away p (current_secret st) = false →
       ∃ s1,
         reducer now st (editSecretStarted p) = Returned (Some s1)
         ∧ ∀ error,
             client.(client_put) (currentPath s1)
               (put_payload (current_secret (Some s1))
                            (current_hiddenKeys (Some s1)))
             = Some error →
             let o := run now client (editCurrentlyShownSecret currentPath p) st in
             o.(trace)
             = [EvDispatch (editSecretStarted p);
                EvPut (currentPath s1)
                  (put_payload (current_secret (Some s1))
                               (current_hiddenKeys (Some s1)))]
             ∧ o.(final_state) = Some s1
             ∧ o.(result) = Thrown).
Proof.
  split.
  - intros d b st error Hget. cbv zeta.
    by rewrite (run_openSecret now client secretPath d b st).
  - intros p st Hl Hopt.
    destruct (run_edit_persisted now client currentPath p st Hl Hopt)
      as (s1 & st2 & Hred & _ & _ & _ & _ & Hrun).
    exists s1. split; [done|]. intros error Hput. cbv zeta in *.
    rewrite Hrun, Hput. done.
Qed.

Lemma failure_rejects_the_thunk_witness :
  (let o :=
     run "2022-03-02T08:30:00.000Z"
       (sample_client (inl sample_error) (Some sample_error))
       (openSecret "/projects/demo/credentials" "/projects/demo" "credentials")
       None in
   o.(trace) = [EvDispatch (openStarted "/projects/demo" "credentials");
                EvGet "/projects/demo/credentials"]
   ∧ o.(result) = Thrown)
  ∧ ∃ s1,
      reducer "2022-03-02T08:30:00.000Z"
        (sample_state [("user", VString "alice")] [] false)
        (editSecretStarted (RemoveKeyValue "user"))
      = Returned (Some s1)
      ∧ (run "2022-03-02T08:30:00.000Z"
           (sample_client (inl sample_error) (Some sample_error))
           (editCurrentlyShownSecret sample_currentPath (RemoveKeyValue "user"))
           (sample_state [("user", VString "alice")] [] false)).(result)
        = Thrown.
Proof.
  destruct (failure_rejects_the_thunk "2022-03-02T08:30:00.000Z"
              (sample_client (inl sample_error) (Some sample_error))
              "/projects/demo/credentials" sample_currentPath)
    as [Hget Hput].
  split.
  - apply (Hget "/projects/demo" "credentials" None sample_error). reflexivity.
  - destruct (Hput (RemoveKeyValue "user")
                (sample_state [("user", VString "alice")] [] false))
      as (s1 & Hred & Herr).
    + apply sample_state_loaded.
    + reflexivity.
    + exists s1. split; [exact Hred|].
      apply (Herr sample_error). reflexivity.
Defined.

(** ** Reading the bookkeeping back *)

(** C10, as the code has it.  When the [".onyxia"] entry of the stored
    secret is absent or is not an object with two arrays of strings, the
    hidden keys are empty and the order is that of all the keys of the
    stored secret.  When it is, the hidden keys are the stored ones and
    the order is the stored one restricted by [key in secret]: a name
    stays when it is a key of the secret, and also when it is inherited
    from [Object.prototype].  Whatever the entry, the thunk then calls
    [actions.navigationTowardSecretSuccess], which the slice does not
    make, and is rejected. *)
Theorem openSecret_reads_bookkeeping (secret : Secret) :
  (¬ well_formed_entry secret →
   hiddenKeys_and_keysOrdering secret = ([], obj_keys secret))
  ∧ (∀ h ko,
       ExtraValue_of secret h ko →
       hiddenKeys_and_keysOrdering secret
       = (h, filter (λ key, key ∈ obj_keys secret
                            ∨ key ∈ object_prototype_names) ko))
  ∧ (∀ now client secretPath dirPath basename st m,
       client.(client_get) secretPath
       = inr {| secret := secret; metadata := m |} →
       let o := run now client (openSecret secretPath dirPath basename) st in
       o.(trace) = [EvDispatch (openStarted dirPath basename);
                    EvGet secretPath]
       ∧ o.(result) = Thrown).
Proof.
  split; [|split].
  - intros Hmal. unfold hiddenKeys_and_keysOrdering.
    by rewrite read_ExtraValue_malformed.
  - intros h ko Hwf. unfold hiddenKeys_and_keysOrdering.
    by rewrite (read_ExtraValue_well_formed _ h ko).
  - intros now client secretPath dirPath basename st m _. cbv zeta.
    by rewrite run_openSecret.
Qed.

Lemma openSecret_reads_bookkeeping_witness :
  let stored :=
    [("user", VString "alice");
     (".onyxia",
      VObject [("hiddenKeys", VArray []);
               ("keysOrdering", VArray [VString "user"; VString "toString";
                                        VString "gone"])])] in
  hiddenKeys_and_keysOrdering stored = ([], ["user"; "toString"])
  ∧ (run "2022-03-02T08:30:00.000Z"
       (sample_client (inr {| secret := stored; metadata := sample_metadata |})
                      None)
       (openSecret "/projects/demo/credentials" "/projects/demo" "credentials")
       None).(result)
    = Thrown.
Proof.
  destruct (openSecret_reads_bookkeeping
              [("user", VString "alice");
               (".onyxia",
                VObject [("hiddenKeys", VArray []);
                         ("keysOrdering",
                          VArray [VString "user"; VString "toString";
                                  VString "gone"])])])
    as (_ & Hwf & Hrun).
  split.
  - apply (Hwf [] ["user"; "toString"; "gone"]).
    eexists. repeat split; reflexivity.
  - apply (Hrun "2022-03-02T08:30:00.000Z"
             (sample_client
                (inr {| secret :=
                          [("user", VString "alice");
                           (".onyxia",
                            VObject [("hiddenKeys", VArray []);
                                     ("keysOrdering",
                                      VArray [VString "user";
                                              VString "toString";
                                              VString "gone"])])];
                        metadata := sample_metadata |}) None)
             "/projects/demo/credentials" "/projects/demo" "credentials" None
             sample_metadata).
    reflexivity.
Defined.

(** ** Round trip of the bookkeeping *)

Lemma filter_all {A} (P : A → Prop) `{!∀ x, Decision (P x)} (l : list A) :
  Forall P l → filter P l = l.
Proof.
  induction 1 as [|x l Hx _ IH]; [done|].
  by rewrite filter_cons_True, IH.
Qed.

Lemma foldl_keys_values {A} (F : string → Value → A → A)
    (get : string → Value) (a : A) (l : Secret) :
  (∀ k v, (k, v) ∈ l → get k = v) →
  foldl (λ acc key_i, F key_i (get key_i) acc) a l.*1
  = foldl (λ acc p, F p.1 p.2 acc) a l.
Proof.
  revert a. induction l as [|[k v] l IH]; intros a Hget; simpl; [done|].
  rewrite (Hget k v) by left. apply IH. intros k' v' Hin. apply Hget. by right.
Qed.

Lemma put_payload_wf (o : Secret) (h : list string) :
  wf_obj o → wf_obj (put_payload o h).
Proof. intros Ho. unfold put_payload. by rewrite obj_spread_wf; [apply wf_obj_set|]. Qed.

Lemma ExtraValue_of_put_payload (o : Secret) (h : list string) :
  ExtraValue_of (put_payload o h) h (obj_keys o).
Proof.
  exists [("hiddenKeys", VArray (VString <$> h));
          ("keysOrdering", VArray (VString <$> obj_keys o))].
  split; [apply put_payload_lookup|]. split; reflexivity.
Qed.

Lemma hiddenKeys_and_keysOrdering_put_payload (o : Secret) (h : list string) :
  hiddenKeys_and_keysOrdering (put_payload o h) = (h, obj_keys o).
Proof.
  unfold hiddenKeys_and_keysOrdering.
  rewrite (read_ExtraValue_well_formed _ h (obj_keys o))
    by apply ExtraValue_of_put_payload.
  simpl. f_equal. apply filter_all, Forall_forall. intros k Hk. left.
  unfold put_payload. apply elem_of_obj_keys_set. right.
  by apply elem_of_obj_keys_spread.
Qed.

(** Reordering the payload of a record gives the record back, less an
    entry under ["__proto__"]: its assignment to the clone is lost. *)
Lemma orderedSecret_put_payload (o : Secret) (h : list string) :
  wf_obj o → extraKey ∉ obj_keys o →
  orderedSecret (put_payload o h) (obj_keys o) = obj_delete "__proto__" o.
Proof.
  intros Ho Habs. unfold orderedSecret.
  rewrite obj_spread_wf by by apply put_payload_wf.
  rewrite put_payload_other_entries, obj_delete_absent by done.
  rewrite obj_delete_all_keys by done.
  rewrite (foldl_keys_values (λ k v acc, obj_put k v acc)
             (λ k, obj_get k (put_payload o h))).
  - rewrite foldl_obj_put by apply not_elem_of_nil.
    rewrite <-obj_delete_filter.
    by apply (foldl_obj_set_app []), wf_obj_delete.
  - intros k v Hin. apply obj_get_NoDup; [by apply put_payload_wf|].
    rewrite put_payload_absent by done. apply elem_of_app. by left.
Qed.

Lemma displayed_put_payload (o : Secret) (h : list string) :
  wf_obj o → extraKey ∉ obj_keys o →
  displayed (put_payload o h) = obj_delete "__proto__" o.
Proof.
  intros Ho Habs. unfold displayed.
  rewrite hiddenKeys_and_keysOrdering_put_payload.
  by apply orderedSecret_put_payload.
Qed.

Lemma obj_delete_present (k : string) (o : Secret) :
  k ∈ obj_keys o → obj_delete k o ≠ o.
Proof.
  intros Hin Heq. apply (f_equal obj_keys) in Heq. rewrite <-Heq in Hin.
  apply elem_of_obj_keys_delete in Hin. naive_solver.
Qed.

(** C4, as the code has it.  Let [s] be a record in property order
    without [".onyxia"] key and [h] a list of hidden keys.  From the
    secret [editCurrentlyShownSecret] sends for [s] and [h],
    [openSecret] reads back the hidden keys [h] and the order of the
    keys of [s]; the secret it puts in order is [s] without its entry
    under ["__proto__"], hence [s] itself exactly when [s] has no such
    entry. *)
Theorem bookkeeping_round_trip (s : Secret) (h : list string) :
  wf_obj s →
  extraKey ∉ obj_keys s →
  hiddenKeys_and_keysOrdering (put_payload s h) = (h, obj_keys s)
  ∧ displayed (put_payload s h) = obj_delete "__proto__" s
  ∧ (displayed (put_payload s h) = s ↔ "__proto__" ∉ obj_keys s).
Proof.
  intros Hs Habs.
  split; [apply hiddenKeys_and_keysOrdering_put_payload|].
  rewrite displayed_put_payload by done. split; [done|]. split.
  - intros Heq Hin. by apply (obj_delete_present "__proto__" s).
  - apply obj_delete_absent.
Qed.

Lemma bookkeeping_round_trip_witness :
  let s := [("__proto__", VString "x"); ("user", VString "alice")] in
  hiddenKeys_and_keysOrdering (put_payload s ["user"])
  = (["user"], ["__proto__"; "user"])
  ∧ displayed (put_payload s ["user"]) = [("user", VString "alice")].
Proof.
  destruct (bookkeeping_round_trip
              [("__proto__", VString "x"); ("user", VString "alice")] ["user"])
    as (Hread & Hshown & _).
  - decide_by_computation.
  - decide_by_computation.
  - split; [exact Hread|exact Hshown].
Defined.

(** * Further properties of the slice *)

(** ** What an edit leaves *)

Lemma editSecretStarted_edited (p : EditSecretParams) (s : SecretsEditorState)
    (swm : SecretWithMetadata) :
  s.(secretWithMetadata) = Some swm →
  Reducers.editSecretStarted p (Some s) = Returned (Some (edited p s swm)).
Proof.
  intros Hswm. unfold edited. simpl. rewrite Hswm.
  by destruct (Reducers.applyEdit p (secret swm) (hiddenKeys s)).
Qed.

(** X2.  When [put] fails the edit is not undone: the thunk ends in the
    state [editSecretStarted] made, with the edited record and hidden
    keys, [isBeingUpdated] still true and the metadata (version,
    creation time) of before the edit. *)
Theorem failed_put_keeps_the_edit (now : string) (client : SecretsManagerClient)
    (currentPath : SecretsEditorState → string) (p : EditSecretParams)
    (s : SecretsEditorState) (swm : SecretWithMetadata) (error : Error) :
  s.(secretWithMetadata) = Some swm →
  optimized_away p swm.(secret) = false →
  client.(client_put) (currentPath (edited p s swm))
    (put_payload (Reducers.applyEdit p swm.(secret) s.(hiddenKeys)).1
                 (Reducers.applyEdit p swm.(secret) s.(hiddenKeys)).2)
  = Some error →
  ∃ s1 swm1,
    (run now client (editCurrentlyShownSecret currentPath p) (Some s)).(final_state)
    = Some s1
    ∧ s1.(secretWithMetadata) = Some swm1
    ∧ swm1.(secret) = (Reducers.applyEdit p swm.(secret) s.(hiddenKeys)).1
    ∧ s1.(hiddenKeys) = (Reducers.applyEdit p swm.(secret) s.(hiddenKeys)).2
    ∧ s1.(isBeingUpdated) = true
    ∧ swm1.(metadata) = swm.(metadata).
Proof.
  intros Hswm Hopt Hput.
  destruct (run_edit_persisted now client currentPath p (Some s))
    as (s1 & st2 & Hred & _ & _ & _ & _ & Hrun).
  { by eexists _, _. }
  { simpl. by rewrite Hswm. }
  cbn [reducer] in Hred. rewrite (editSecretStarted_edited p s swm Hswm) in Hred.
  injection Hred as <-. cbv zeta in Hrun.
  change (current_secret (Some (edited p s swm)))
    with (Reducers.applyEdit p swm.(secret) s.(hiddenKeys)).1 in Hrun.
  change (current_hiddenKeys (Some (edited p s swm)))
    with (Reducers.applyEdit p swm.(secret) s.(hiddenKeys)).2 in Hrun.
  rewrite Hput in Hrun. rewrite Hrun. by eexists _, _.
Qed.

Lemma failed_put_keeps_the_edit_witness :
  ∃ s1 swm1,
    (run "2022-03-02T08:30:00.000Z"
       (sample_client (inl sample_error) (Some sample_error))
       (editCurrentlyShownSecret sample_currentPath (RemoveKeyValue "user"))
       (sample_state [("user", VString "alice")] [] false)).(final_state)
    = Some s1
    ∧ s1.(secretWithMetadata) = Some swm1
    ∧ swm1.(secret) = []
    ∧ s1.(isBeingUpdated) = true
    ∧ swm1.(metadata) = sample_metadata.
Proof.
  destruct (failed_put_keeps_the_edit "2022-03-02T08:30:00.000Z"
              (sample_client (inl sample_error) (Some sample_error))
              sample_currentPath (RemoveKeyValue "user")
              {| dirPath := "/projects/demo";
                 basename := "credentials";
                 secretWithMetadata :=
                   Some {| secret := [("user", VString "alice")];
                           metadata := sample_metadata |};
                 hiddenKeys := [];
                 isBeingUpdated := false |}
              {| secret := [("user", VString "alice")];
                 metadata := sample_metadata |} sample_error)
    as (s1 & swm1 & Hfinal & Hswm1 & Hsecret & _ & Hflag & Hmeta).
  - reflexivity.
  - reflexivity.
  - reflexivity.
  - exists s1, swm1.
    exact (conj Hfinal (conj Hswm1 (conj Hsecret (conj Hflag Hmeta)))).
Defined.

(** X3.  When [put] succeeds the thunk ends in a state holding the
    edited record and hidden keys, with the version of the metadata one
    more than before the edit (the version being below [2^53] in
    magnitude), [created_time] the current time and [isBeingUpdated]
    false. *)
Theorem successful_edit_final_state (now : string)
    (client : SecretsManagerClient)
    (currentPath : SecretsEditorState → string) (p : EditSecretParams)
    (s : SecretsEditorState) (swm : SecretWithMetadata) :
  s.(secretWithMetadata) = Some swm →
  (Z.abs swm.(metadata).(version) < 2 ^ 53)%Z →
  optimized_away p swm.(secret) = false →
  client.(client_put) (currentPath (edited p s swm))
    (put_payload (Reducers.applyEdit p swm.(secret) s.(hiddenKeys)).1
                 (Reducers.applyEdit p swm.(secret) s.(hiddenKeys)).2)
  = None →
  ∃ s2 swm2,
    (run now client (editCurrentlyShownSecret currentPath p) (Some s)).(final_state)
    = Some s2
    ∧ s2.(secretWithMetadata) = Some swm2
    ∧ swm2.(secret) = (Reducers.applyEdit p swm.(secret) s.(hiddenKeys)).1
    ∧ s2.(hiddenKeys) = (Reducers.applyEdit p swm.(secret) s.(hiddenKeys)).2
    ∧ s2.(isBeingUpdated) = false
    ∧ swm2.(metadata).(version) = (swm.(metadata).(version) + 1)%Z
    ∧ swm2.(metadata).(created_time) = now
    ∧ swm2.(metadata).(other_metadata) = swm.(metadata).(other_metadata)
    ∧ s2.(dirPath) = s.(dirPath) ∧ s2.(basename) = s.(basename).
Proof.
  intros Hswm Hv Hopt Hput.
  destruct (run_edit_persisted now client currentPath p (Some s))
    as (s1 & st2 & Hred & _ & _ & _ & Hdone & Hrun).
  { by eexists _, _. }
  { simpl. by rewrite Hswm. }
  cbn [reducer] in Hred. rewrite (editSecretStarted_edited p s swm Hswm) in Hred.
  injection Hred as <-. cbv zeta in Hrun.
  change (current_secret (Some (edited p s swm)))
    with (Reducers.applyEdit p swm.(secret) s.(hiddenKeys)).1 in Hrun.
  change (current_hiddenKeys (Some (edited p s swm)))
    with (Reducers.applyEdit p swm.(secret) s.(hiddenKeys)).2 in Hrun.
  rewrite Hput in Hrun. rewrite Hrun. simpl in Hdone. injection Hdone as <-.
  eexists _, _. simpl. repeat split. by apply increment_exact.
Qed.

Lemma successful_edit_final_state_witness :
  ∃ s2 swm2,
    (run "2022-03-02T08:30:00.000Z" (sample_client (inl sample_error) None)
       (editCurrentlyShownSecret sample_currentPath
          (AddOrOverwriteKeyValue "user" "bob"))
       (sample_state [("user", VString "alice")] [] false)).(final_state)
    = Some s2
    ∧ s2.(secretWithMetadata) = Some swm2
    ∧ swm2.(secret) = [("user", VString "bob")]
    ∧ s2.(isBeingUpdated) = false
    ∧ swm2.(metadata).(version) = 4%Z.
Proof.
  destruct (successful_edit_final_state "2022-03-02T08:30:00.000Z"
              (sample_client (inl sample_error) None)
              sample_currentPath (AddOrOverwriteKeyValue "user" "bob")
              {| dirPath := "/projects/demo";
                 basename := "credentials";
                 secretWithMetadata :=
                   Some {| secret := [("user", VString "alice")];
                           metadata := sample_metadata |};
                 hiddenKeys := [];
                 isBeingUpdated := false |}
              {| secret := [("user", VString "alice")];
                 metadata := sample_metadata |})
    as (s2 & swm2 & Hfinal & Hswm2 & Hsecret & _ & Hflag & Hversion & _).
  - reflexivity.
  - reflexivity.
  - reflexivity.
  - reflexivity.
  - exists s2, swm2.
    exact (conj Hfinal (conj Hswm2 (conj Hsecret (conj Hflag Hversion)))).
Defined.

(** ** What the optimizations skip *)

Lemma obj_overwrite_same (k : string) (v : Value) (o : Secret) :
  obj_lookup k o = Some v → obj_overwrite k v o = o.
Proof.
  induction o as [|[k1 v1] o IH]; simpl; [done|].
  case_decide; [by intros [= ->]|]. intros Hl. by rewrite IH.
Qed.

Lemma obj_set_same (k : string) (v : Value) (o : Secret) :
  obj_lookup k o = Some v → obj_set k v o = o.
Proof.
  intros Hl. unfold obj_set, obj_has. rewrite Hl.
  rewrite bool_decide_eq_true_2 by by eexists. by apply obj_overwrite_same.
Qed.

Lemma obj_put_same (k : string) (v : Value) (o : Secret) :
  obj_lookup k o = Some v → obj_put k v o = o.
Proof.
  intros Hl. rewrite obj_put_set; [by apply obj_set_same|].
  right. apply obj_lookup_is_Some. by eexists.
Qed.

Lemma strict_eq_string_lookup (k s : string) (o : Secret) :
  strict_eq_string (obj_get k o) s = true → obj_lookup k o = Some (VString s).
Proof.
  unfold obj_get. destruct (obj_lookup k o) as [v|]; simpl.
  - destruct v; simpl; try done. by intros ->%bool_decide_eq_true.
  - by destruct (inherited k).
Qed.

Lemma renamed_same (key : string) (o : Secret) : renamed key key id o = o.
Proof.
  unfold renamed. induction o as [|[k v] o IH]; [done|].
  rewrite fmap_cons, IH. simpl. by case_decide; subst.
Qed.

Lemma renameKey_same (key : string) (o : Secret) :
  wf_obj o → "__proto__" ∉ obj_keys o → Reducers.renameKey key key o = o.
Proof.
  intros Ho Hp. rewrite renameKey_in_place; rewrite ?renamed_same; done.
Qed.

Lemma renameKey_absent (key newKey : string) (o : Secret) :
  wf_obj o → "__proto__" ∉ obj_keys o → key ∉ obj_keys o →
  Reducers.renameKey key newKey o = o.
Proof.
  intros Ho Hp Habs.
  rewrite renameKey_in_place; rewrite ?renamed_absent; done.
Qed.

Lemma applyEdit_optimized_away (p : EditSecretParams) (o : Secret)
    (h : list string) :
  wf_obj o → "__proto__" ∉ obj_keys o →
  optimized_away p o = true → Reducers.applyEdit p o h = (o, h).
Proof.
  intros Ho Hp.
  destruct p as [key value|key newKey|key newKey newValue|key|ty key];
    simpl; try done.
  - intros Heq%strict_eq_string_lookup. by rewrite obj_put_same.
  - intros ->%bool_decide_eq_true. by rewrite renameKey_same.
  - intros [->%bool_decide_eq_true Heq%strict_eq_string_lookup]%andb_true_iff.
    by rewrite renameKey_same, obj_put_same.
  - intros [Habs _]%negb_true_iff%obj_in_false. by rewrite obj_delete_absent.
Qed.

(** X4.  On a record without a key ["__proto__"], the optimizations of
    [editCurrentlyShownSecret] skip only edits that change nothing: when
    the thunk returns at once for an edit, the reducer applied to that
    edit would have left the record and the hidden keys as they are. *)
Theorem optimizations_skip_only_no_ops (p : EditSecretParams) (st : State) :
  loaded st →
  wf_obj (current_secret st) →
  "__proto__" ∉ obj_keys (current_secret st) →
  optimized_away p (current_secret st) = true →
  ∃ st',
    Reducers.editSecretStarted p st = Returned st'
    ∧ current_secret st' = current_secret st
    ∧ current_hiddenKeys st' = current_hiddenKeys st.
Proof.
  intros Hl Hwf Hp Hopt.
  destruct (editSecretStarted_loaded p st Hl) as (st' & Hred & _ & Hs & Hh).
  exists st'. rewrite Hs, Hh, applyEdit_optimized_away by done. done.
Qed.

Lemma optimizations_skip_only_no_ops_witness :
  ∃ st',
    Reducers.editSecretStarted (RenameKeyAndUpdateValue "user" "user" "alice")
      (sample_state [("user", VString "alice"); ("role", VString "admin")]
                    ["role"] false)
    = Returned st'
    ∧ current_secret st'
      = [("user", VString "alice"); ("role", VString "admin")]
    ∧ current_hiddenKeys st' = ["role"].
Proof.
  apply (optimizations_skip_only_no_ops
           (RenameKeyAndUpdateValue "user" "user" "alice")
           (sample_state [("user", VString "alice"); ("role", VString "admin")]
                         ["role"] false)).
  - apply sample_state_loaded.
  - decide_by_computation.
  - decide_by_computation.
  - reflexivity.
Defined.

(** X5.  On a record without a key ["__proto__"], renaming a key that
    the record does not have changes nothing and creates no entry, and
    unless the two names are equal the thunk does not skip it;
    [renameKeyAndUpdateValue] of such a key is [addOrOverwriteKeyValue]
    of the new key with the new value. *)
Theorem rename_of_missing_key (key newKey newValue : string) (st : State) :
  loaded st →
  wf_obj (current_secret st) →
  "__proto__" ∉ obj_keys (current_secret st) →
  key ∉ obj_keys (current_secret st) →
  (∃ st',
     Reducers.editSecretStarted (RenameKey key newKey) st = Returned st'
     ∧ current_secret st' = current_secret st)
  ∧ (key ≠ newKey →
     optimized_away (RenameKey key newKey) (current_secret st) = false)
  ∧ Reducers.editSecretStarted (RenameKeyAndUpdateValue key newKey newValue) st
    = Reducers.editSecretStarted (AddOrOverwriteKeyValue newKey newValue) st.
Proof.
  intros Hl Hwf Hp Habs. split; [|split].
  - destruct (editSecretStarted_loaded (RenameKey key newKey) st Hl)
      as (st' & Hred & _ & Hs & _).
    exists st'. split; [done|]. rewrite Hs. simpl. by apply renameKey_absent.
  - intros Hne. simpl. by apply bool_decide_eq_false.
  - destruct Hl as (s & swm & -> & Hswm). simpl in *. rewrite Hswm in *.
    simpl. by rewrite renameKey_absent.
Qed.

Lemma rename_of_missing_key_witness :
  Reducers.editSecretStarted (RenameKeyAndUpdateValue "login" "user" "bob")
    (sample_state [("user", VString "alice")] [] false)
  = Reducers.editSecretStarted (AddOrOverwriteKeyValue "user" "bob")
      (sample_state [("user", VString "alice")] [] false).
Proof.
  apply (rename_of_missing_key "login" "user" "bob"
           (sample_state [("user", VString "alice")] [] false)).
  - apply sample_state_loaded.
  - decide_by_computation.
  - decide_by_computation.
  - decide_by_computation.
Defined.

(** ** Adding, removing and renaming *)

(** X6.  After [addOrOverwriteKeyValue] of a key other than
    ["__proto__"] the key holds the new value.  A key the record had
    keeps its place among the keys; a new key that is not an array index
    comes last; the hidden keys are as before. *)
Theorem add_then_lookup (key value : string) (st : State) :
  loaded st →
  key ≠ "__proto__" →
  ∃ st',
    Reducers.editSecretStarted (AddOrOverwriteKeyValue key value) st
    = Returned st'
    ∧ obj_lookup key (current_secret st') = Some (VString value)
    ∧ (key ∈ obj_keys (current_secret st) →
       obj_keys (current_secret st') = obj_keys (current_secret st))
    ∧ (key ∉ obj_keys (current_secret st) → array_index key = None →
       current_secret st' = current_secret st ++ [(key, VString value)])
    ∧ current_hiddenKeys st' = current_hiddenKeys st.
Proof.
  intros Hl Hne.
  destruct (editSecretStarted_loaded (AddOrOverwriteKeyValue key value) st Hl)
    as (st' & Hred & _ & Hs & Hh).
  exists st'. rewrite Hs, Hh. simpl. rewrite obj_put_set by auto.
  split; [done|].
  split; [apply obj_lookup_set|]. split; [|split; [|done]].
  - intros Hin%obj_has_true. unfold obj_set. rewrite Hin.
    apply obj_keys_overwrite.
  - intros Habs%obj_has_false Hidx. unfold obj_set. rewrite Habs.
    apply obj_insert_last, Forall_forall. intros k' _. by apply key_le_named.
Qed.

Lemma add_then_lookup_witness :
  ∃ st',
    Reducers.editSecretStarted (AddOrOverwriteKeyValue "role" "admin")
      (sample_state [("user", VString "alice")] [] false)
    = Returned st'
    ∧ current_secret st'
      = [("user", VString "alice"); ("role", VString "admin")].
Proof.
  destruct (add_then_lookup "role" "admin"
              (sample_state [("user", VString "alice")] [] false))
    as (st' & Hred & _ & _ & Hnew & _).
  - apply sample_state_loaded.
  - decide_by_computation.
  - exists st'. split; [exact Hred|]. apply Hnew.
    + decide_by_computation.
    + reflexivity.
Defined.

(** X7.  After [removeKeyValue] the record has no entry for the key;
    removing a key the record does not have changes nothing; and
    removing a key just added, that the record did not have, gives the
    record back. *)
Theorem remove_then_absent (key value : string) (st : State) :
  loaded st →
  (∃ st',
     Reducers.editSecretStarted (RemoveKeyValue key) st = Returned st'
     ∧ obj_lookup key (current_secret st') = None
     ∧ (key ∉ obj_keys (current_secret st) →
        current_secret st' = current_secret st))
  ∧ (key ∉ obj_keys (current_secret st) →
     ∃ st1 st2,
       Reducers.editSecretStarted (AddOrOverwriteKeyValue key value) st
       = Returned st1
       ∧ Reducers.editSecretStarted (RemoveKeyValue key) st1 = Returned st2
       ∧ current_secret st2 = current_secret st).
Proof.
  intros Hl. split.
  - destruct (editSecretStarted_loaded (RemoveKeyValue key) st Hl)
      as (st' & Hred & _ & Hs & _).
    exists st'. rewrite Hs. simpl. split; [done|]. split.
    + apply obj_lookup_None. rewrite elem_of_obj_keys_delete. naive_solver.
    + apply obj_delete_absent.
  - intros Habs.
    destruct (editSecretStarted_loaded (AddOrOverwriteKeyValue key value) st Hl)
      as (st1 & Hred1 & Hl1 & Hs1 & _).
    destruct (editSecretStarted_loaded (RemoveKeyValue key) st1 Hl1)
      as (st2 & Hred2 & _ & Hs2 & _).
    exists st1, st2. rewrite Hs2, Hs1. simpl.
    by rewrite obj_delete_put, obj_delete_absent.
Qed.

Lemma remove_then_absent_witness :
  ∃ st',
    Reducers.editSecretStarted (RemoveKeyValue "user")
      (sample_state [("user", VString "alice"); ("role", VString "admin")]
                    [] false)
    = Returned st'
    ∧ obj_lookup "user" (current_secret st') = None.
Proof.
  destruct (remove_then_absent "user" "alice"
              (sample_state [("user", VString "alice");
                             ("role", VString "admin")] [] false))
    as [(st' & Hred & Habs & _) _].
  - apply sample_state_loaded.
  - exists st'. exact (conj Hred Habs).
Defined.

Lemma renamed_inverse (key newKey : string) (o : Secret) :
  newKey ∉ obj_keys o →
  renamed newKey key id (renamed key newKey id o) = o.
Proof.
  induction o as [|[k v] o IH]; [done|]. intros Hn.
  assert (newKey ≠ k ∧ newKey ∉ obj_keys o) as [Hne Habs]
    by (apply not_elem_of_cons; exact Hn).
  rewrite (renamed_cons key newKey).
  destruct (decide (k = key)) as [->|Hk].
  - rewrite renamed_cons, decide_True by done. by rewrite IH.
  - rewrite renamed_cons, decide_False by done. by rewrite IH.
Qed.

(** X8.  On a record without a key ["__proto__"], renaming a key of
    the record to a name other than ["__proto__"] that the record does
    not have, and back, gives the record back, entry for entry,
    whenever the renamed keys are in enumeration order (as they are
    when neither name is an array index). *)
Theorem rename_and_back (key newKey : string) (st : State) :
  loaded st →
  wf_obj (current_secret st) →
  "__proto__" ∉ obj_keys (current_secret st) →
  newKey ≠ "__proto__" →
  key ∈ obj_keys (current_secret st) →
  newKey ∉ obj_keys (current_secret st) →
  js_ordered (renamed key newKey id (current_secret st)) →
  ∃ st1 st2,
    Reducers.editSecretStarted (RenameKey key newKey) st = Returned st1
    ∧ Reducers.editSecretStarted (RenameKey newKey key) st1 = Returned st2
    ∧ current_secret st1 = renamed key newKey id (current_secret st)
    ∧ current_secret st2 = current_secret st.
Proof.
  intros Hl Hwf Hp Hne Hin Hnew Hord.
  destruct (editSecretStarted_loaded (RenameKey key newKey) st Hl)
    as (st1 & Hred1 & Hl1 & Hs1 & _).
  destruct (editSecretStarted_loaded (RenameKey newKey key) st1 Hl1)
    as (st2 & Hred2 & _ & Hs2 & _).
  exists st1, st2. split; [done|]. split; [done|].
  assert (wf_obj (renamed key newKey id (current_secret st))) as Hr.
  { split; [|done]. apply NoDup_obj_keys_renamed; [apply Hwf|by right]. }
  assert ("__proto__" ∉ obj_keys (renamed key newKey id (current_secret st)))
    as Hpr.
  { rewrite obj_keys_renamed.
    intros (k & Hk & Hko)%list_elem_of_fmap. case_decide; congruence. }
  assert (current_secret st1 = renamed key newKey id (current_secret st))
    as Hst1.
  { rewrite Hs1. simpl. by apply renameKey_in_place. }
  split; [done|]. rewrite Hs2, Hst1. simpl.
  rewrite renameKey_in_place; rewrite ?renamed_inverse; done.
Qed.

Lemma rename_and_back_witness :
  ∃ st1 st2,
    Reducers.editSecretStarted (RenameKey "user" "login")
      (sample_state [("user", VString "alice"); ("role", VString "admin")]
                    [] false)
    = Returned st1
    ∧ Reducers.editSecretStarted (RenameKey "login" "user") st1 = Returned st2
    ∧ current_secret st1
      = [("login", VString "alice"); ("role", VString "admin")]
    ∧ current_secret st2
      = [("user", VString "alice"); ("role", VString "admin")].
Proof.
  apply (rename_and_back "user" "login"
           (sample_state [("user", VString "alice"); ("role", VString "admin")]
                         [] false)).
  - apply sample_state_loaded.
  - decide_by_computation.
  - decide_by_computation.
  - decide_by_computation.
  - decide_by_computation.
  - decide_by_computation.
  - decide_by_computation.
Defined.

(** ** Hidden keys under edits *)

(** X9.  Revealing a key that is not hidden leaves the hidden keys as
    they are, and hiding such a key and then revealing it gives them
    back; the record is the same throughout. *)
Theorem hide_then_reveal (key : string) (st : State) :
  loaded st →
  key ∉ current_hiddenKeys st →
  (∃ st',
     Reducers.editSecretStarted (HideOrRevealKey reveal key) st = Returned st'
     ∧ current_hiddenKeys st' = current_hiddenKeys st
     ∧ current_secret st' = current_secret st)
  ∧ (∃ st1 st2,
       Reducers.editSecretStarted (HideOrRevealKey hide key) st = Returned st1
       ∧ Reducers.editSecretStarted (HideOrRevealKey reveal key) st1
         = Returned st2
       ∧ key ∈ current_hiddenKeys st1
       ∧ current_hiddenKeys st2 = current_hiddenKeys st
       ∧ current_secret st2 = current_secret st).
Proof.
  intros Hl Habs.
  assert (filter (λ key_i, key_i ≠ key) (current_hiddenKeys st)
          = current_hiddenKeys st) as Hkeep.
  { apply filter_all, Forall_forall. by intros k Hk ->. }
  split.
  - destruct (editSecretStarted_loaded (HideOrRevealKey reveal key) st Hl)
      as (st' & Hred & _ & Hs & Hh).
    exists st'. by rewrite Hs, Hh.
  - destruct (editSecretStarted_hide key st Hl) as (st1 & Hred1 & Hl1 & Hs1 & Hh1).
    destruct (editSecretStarted_loaded (HideOrRevealKey reveal key) st1 Hl1)
      as (st2 & Hred2 & _ & Hs2 & Hh2).
    exists st1, st2. rewrite Hs2, Hh2, Hs1, Hh1. simpl.
    repeat split; try done.
    + apply elem_of_app. right. left.
    + rewrite filter_app, Hkeep, filter_cons_False by naive_solver.
      by rewrite filter_nil, app_nil_r.
Qed.

Lemma hide_then_reveal_witness :
  ∃ st1 st2,
    Reducers.editSecretStarted (HideOrRevealKey hide "password")
      (sample_state [("password", VString "s3cret")] ["token"] false)
    = Returned st1
    ∧ Reducers.editSecretStarted (HideOrRevealKey reveal "password") st1
      = Returned st2
    ∧ current_hiddenKeys st2 = ["token"].
Proof.
  destruct (hide_then_reveal "password"
              (sample_state [("password", VString "s3cret")] ["token"] false))
    as [_ (st1 & st2 & Hred1 & Hred2 & _ & Hh & _)].
  - apply sample_state_loaded.
  - decide_by_computation.
  - exists st1, st2. exact (conj Hred1 (conj Hred2 Hh)).
Defined.

(** X10.  The edits of the record never touch the hidden keys.  So a
    hidden key that is removed, or renamed to another name, stays in the
    hidden keys under its old name while the record no longer has it. *)
Theorem hidden_key_outlives_its_entry (p : EditSecretParams)
    (key : string) (st : State) :
  loaded st →
  key ∈ current_hiddenKeys st →
  p = RemoveKeyValue key
  ∨ (∃ newKey, key ≠ newKey ∧ p = RenameKey key newKey)
  ∨ (∃ newKey newValue,
       key ≠ newKey ∧ p = RenameKeyAndUpdateValue key newKey newValue) →
  ∃ st',
    Reducers.editSecretStarted p st = Returned st'
    ∧ current_hiddenKeys st' = current_hiddenKeys st
    ∧ key ∈ current_hiddenKeys st'
    ∧ key ∉ obj_keys (current_secret st').
Proof.
  intros Hl Hhid Hp.
  destruct (editSecretStarted_loaded p st Hl) as (st' & Hred & _ & Hs & Hh).
  exists st'. split; [done|]. rewrite Hs, Hh.
  assert (∀ newKey, key ≠ newKey →
            key ∉ obj_keys (Reducers.renameKey key newKey (current_secret st)))
    as Hren.
  { intros newKey Hne (_ & k & _ & Hk)%elem_of_obj_keys_renameKey.
    by case_decide; subst. }
  destruct Hp as [->|[(newKey & Hne & ->)|(newKey & newValue & Hne & ->)]]; simpl.
  - repeat split; try done. rewrite elem_of_obj_keys_delete. naive_solver.
  - repeat split; try done. by apply Hren.
  - repeat split; try done. rewrite elem_of_obj_keys_put.
    intros [[? _]|?]; [done|]. by apply (Hren newKey).
Qed.

Lemma hidden_key_outlives_its_entry_witness :
  ∃ st',
    Reducers.editSecretStarted (RenameKey "password" "pass")
      (sample_state [("password", VString "s3cret")] ["password"] false)
    = Returned st'
    ∧ "password" ∈ current_hiddenKeys st'
    ∧ "password" ∉ obj_keys (current_secret st').
Proof.
  destruct (hidden_key_outlives_its_entry (RenameKey "password" "pass")
              "password"
              (sample_state [("password", VString "s3cret")] ["password"] false))
    as (st' & Hred & _ & Hin & Hout).
  - apply sample_state_loaded.
  - decide_by_computation.
  - right. left. exists "pass". split; [|reflexivity]. decide_by_computation.
  - exists st'. exact (conj Hred (conj Hin Hout)).
Defined.

(** ** What [openSecret] displays *)

Lemma obj_lookup_foldl_put_keys (g : string → Value) (ks : list string)
    (o : Secret) (k : string) :
  obj_lookup k (foldl (λ acc key, obj_put key (g key) acc) o ks)
  = if decide (k ∈ ks ∧ (k ≠ "__proto__" ∨ k ∈ obj_keys o))
    then Some (g k) else obj_lookup k o.
Proof.
  revert o. induction ks as [|k1 ks IH]; intros o; cbn [foldl].
  - rewrite decide_False; [done|]. rewrite elem_of_nil. tauto.
  - rewrite IH.
    assert (k ≠ "__proto__" ∨ k ∈ obj_keys (obj_put k1 (g k1) o)
            ↔ k ≠ "__proto__" ∨ k ∈ obj_keys o) as Hsame.
    { rewrite elem_of_obj_keys_put.
      destruct (decide (k = "__proto__")); naive_solver. }
    destruct (decide (k ∈ ks ∧ _)) as [[Hin Hc]|Hn].
    + rewrite decide_True; [done|]. split; [by right|by apply Hsame].
    + destruct (decide (k = k1)) as [->|Hne].
      * destruct (decide (k1 ≠ "__proto__" ∨ k1 ∈ obj_keys o)) as [Hc|Hc].
        -- rewrite obj_lookup_put by done.
           rewrite decide_True; [done|]. split; [left|done].
        -- assert (k1 = "__proto__") as -> by (apply dec_stable; tauto).
           rewrite obj_put_proto by tauto.
           rewrite decide_False; [done|]. tauto.
      * rewrite obj_lookup_put_ne by done.
        destruct (decide (k ∈ k1 :: ks ∧ _)) as [[Hin Hc]|_]; [|done].
        destruct Hn. split; [|by apply Hsame].
        apply elem_of_cons in Hin. naive_solver.
Qed.

Lemma obj_get_lookup (k : string) (o : Secret) :
  k ∈ obj_keys o → obj_lookup k o = Some (obj_get k o).
Proof.
  intros [v Hv]%obj_lookup_is_Some. unfold obj_get. by rewrite Hv.
Qed.

(** Every name of the order [openSecret] reads passes [key in secret]:
    it is a key of the stored secret or a name inherited from
    [Object.prototype]. *)
Lemma keysOrdering_in (secret : Secret) (k : string) :
  k ∈ (hiddenKeys_and_keysOrdering secret).2 →
  k ∈ obj_keys secret ∨ k ∈ object_prototype_names.
Proof.
  unfold hiddenKeys_and_keysOrdering, read_ExtraValue.
  destruct (obj_get extraKey secret) as [| | | | | |fields|]; simpl; auto.
  destruct (is_string_array (obj_get "hiddenKeys" fields)); simpl; auto.
  destruct (is_string_array (obj_get "keysOrdering" fields)); simpl; auto.
  intros [Hk _]%list_elem_of_filter. by apply obj_in_spec.
Qed.

(** The entries of the secret put in order: a listed name holds what
    the stored secret gives under it, but ["__proto__"], whose
    assignment is lost; an unlisted one is as stored, but [".onyxia"]. *)
Lemma obj_lookup_orderedSecret (secret : Secret) (ks : list string) (k : string) :
  wf_obj secret →
  obj_lookup k (orderedSecret secret ks)
  = if decide (k ∈ ks)
    then if decide (k = "__proto__") then None else Some (obj_get k secret)
    else if decide (k = extraKey) then None else obj_lookup k secret.
Proof.
  intros Hwf. unfold orderedSecret.
  rewrite (obj_lookup_foldl_put_keys (λ key, obj_get key secret)).
  rewrite obj_spread_wf by done.
  destruct (decide (k ∈ ks)) as [Hin|Hout].
  - assert (k ∉ obj_keys (obj_delete_all ks (obj_delete extraKey secret)))
      as Hgone by (rewrite elem_of_obj_keys_delete_all; tauto).
    destruct (decide (k = "__proto__")) as [->|Hne].
    + rewrite decide_False by tauto. by apply obj_lookup_None.
    + rewrite decide_True; [done|]. auto.
  - rewrite decide_False by tauto.
    rewrite obj_lookup_delete_all_ne by done.
    destruct (decide (k = extraKey)) as [->|Hne].
    + apply obj_lookup_None. rewrite elem_of_obj_keys_delete. naive_solver.
    + by apply obj_lookup_delete_ne.
Qed.

(** X11.  The secret [openSecret] puts in order keeps, for every key of
    the stored secret other than [".onyxia"] and ["__proto__"], the
    value stored for it.  A key it has that the stored secret has not
    is a name inherited from [Object.prototype] that the order read
    from the store lists, and it holds the value inherited under that
    name.  It has an [".onyxia"] entry only if that order lists the
    key. *)
Theorem openSecret_keeps_every_entry (secret : Secret) :
  wf_obj secret →
  (∀ k, k ∈ obj_keys secret → k ≠ extraKey → k ≠ "__proto__" →
        obj_lookup k (displayed secret) = obj_lookup k secret)
  ∧ (∀ k, k ∈ obj_keys (displayed secret) → k ∉ obj_keys secret →
          k ∈ object_prototype_names
          ∧ k ∈ (hiddenKeys_and_keysOrdering secret).2
          ∧ obj_lookup k (displayed secret) = Some (VInherited k))
  ∧ (extraKey ∉ (hiddenKeys_and_keysOrdering secret).2 →
     extraKey ∉ obj_keys (displayed secret)).
Proof.
  intros Hwf. unfold displayed. split; [|split].
  - intros k Hin Hne Hp. rewrite obj_lookup_orderedSecret by done.
    destruct (decide (k ∈ _)).
    + rewrite decide_False by done. symmetry. by apply obj_get_lookup.
    + by rewrite decide_False.
  - intros k [v Hv]%obj_lookup_is_Some Hout.
    rewrite obj_lookup_orderedSecret in * by done.
    destruct (decide (k ∈ _)) as [Hks|Hks].
    + destruct (keysOrdering_in secret k Hks) as [?|Hinh]; [done|].
      split; [done|]. split; [done|].
      destruct (decide (k = "__proto__")); [done|]. f_equal.
      unfold obj_get, inherited.
      apply obj_lookup_None in Hout. rewrite Hout.
      by rewrite bool_decide_eq_true_2.
    + destruct (decide (k = extraKey)); [done|].
      destruct Hout. apply obj_lookup_is_Some. by eexists.
  - intros Hout. apply obj_lookup_None.
    rewrite obj_lookup_orderedSecret by done.
    rewrite decide_False by done. by rewrite decide_True.
Qed.

Lemma openSecret_keeps_every_entry_witness :
  obj_lookup "password"
    (displayed
       [("password", VString "s3cret");
        (".onyxia",
         VObject [("hiddenKeys", VArray []);
                  ("keysOrdering", VArray [VString "user"])]);
        ("user", VString "alice")])
  = Some (VString "s3cret").
Proof.
  destruct (openSecret_keeps_every_entry
              [("password", VString "s3cret");
               (".onyxia",
                VObject [("hiddenKeys", VArray []);
                         ("keysOrdering", VArray [VString "user"])]);
               ("user", VString "alice")])
    as (Hsame & _).
  - decide_by_computation.
  - apply (Hsame "password"); decide_by_computation.
Defined.






(** ** Saving and reopening *)

(** X13.  What an edit saves is what [openSecret] reads back: from the
    secret that [editCurrentlyShownSecret] has put, the extraction and
    the reordering of [openSecret] give the hidden keys and the record
    of the state the edit left, provided that record has neither an
    [".onyxia"] key nor a ["__proto__"] key. *)
Theorem saved_secret_reopens (now : string) (client : SecretsManagerClient)
    (currentPath : SecretsEditorState → string)
    (p : EditSecretParams) (st : State) :
  loaded st →
  wf_obj (current_secret st) →
  optimized_away p (current_secret st) = false →
  ∃ st1 path payload,
    Reducers.editSecretStarted p st = Returned st1
    ∧ filter (λ e, is_put e)
        (run now client (editCurrentlyShownSecret currentPath p) st).(trace)
      = [EvPut path payload]
    ∧ (extraKey ∉ obj_keys (current_secret st1) →
       "__proto__" ∉ obj_keys (current_secret st1) →
       hiddenKeys_and_keysOrdering payload
       = (current_hiddenKeys st1, obj_keys (current_secret st1))
       ∧ displayed payload = current_secret st1).
Proof.
  intros Hl Hwf Hopt.
  destruct (run_edit_persisted now client currentPath p st Hl Hopt)
    as (s1 & st2 & Hred & _ & Hs1 & _ & _ & Hrun).
  assert (wf_obj (current_secret (Some s1))) as Hwf1.
  { rewrite Hs1. by apply applyEdit_wf. }
  eexists (Some s1), _, _. split; [exact Hred|]. split.
  - cbv zeta in Hrun. rewrite Hrun. by destruct (client_put client _ _).
  - intros Habs Hp.
    split; [apply hiddenKeys_and_keysOrdering_put_payload|].
    rewrite displayed_put_payload by done. by apply obj_delete_absent.
Qed.

Lemma saved_secret_reopens_witness :
  ∃ st1 path payload,
    Reducers.editSecretStarted (HideOrRevealKey hide "password")
      (sample_state [("user", VString "alice"); ("password", VString "s3cret")]
                    [] false)
    = Returned st1
    ∧ filter (λ e, is_put e)
        (run "2022-03-02T08:30:00.000Z" (sample_client (inl sample_error) None)
           (editCurrentlyShownSecret sample_currentPath
              (HideOrRevealKey hide "password"))
           (sample_state [("user", VString "alice");
                          ("password", VString "s3cret")] [] false)).(trace)
      = [EvPut path payload]
    ∧ current_secret st1
      = [("user", VString "alice"); ("password", VString "s3cret")]
    ∧ displayed payload = current_secret st1.
Proof.
  destruct (saved_secret_reopens "2022-03-02T08:30:00.000Z"
              (sample_client (inl sample_error) None) sample_currentPath
              (HideOrRevealKey hide "password")
              (sample_state [("user", VString "alice");
                             ("password", VString "s3cret")] [] false))
    as (st1 & path & payload & Hred & Hput & Hopen).
  - apply sample_state_loaded.
  - decide_by_computation.
  - reflexivity.
  - assert (current_secret st1
            = [("user", VString "alice"); ("password", VString "s3cret")])
      as Hs1.
    { vm_compute in Hred. injection Hred as <-. reflexivity. }
    exists st1, path, payload. split; [exact Hred|]. split; [exact Hput|].
    split; [exact Hs1|].
    apply Hopen; rewrite Hs1; decide_by_computation.
Defined.

(** ** Names that objects inherit *)

(** X17.  A name inherited from [Object.prototype] passes
    [key in secret]: [removeKeyValue] of such a name, when the record
    has no entry for it, is not skipped by the optimizations although it
    changes nothing.  The edit is dispatched, it leaves the record and
    the hidden keys as they are, and the record is sent. *)
Theorem remove_of_inherited_name_is_sent (now : string)
    (client : SecretsManagerClient)
    (currentPath : SecretsEditorState → string) (key : string) (st : State) :
  loaded st →
  key ∈ object_prototype_names →
  key ∉ obj_keys (current_secret st) →
  optimized_away (RemoveKeyValue key) (current_secret st) = false
  ∧ ∃ st1 path payload,
      Reducers.editSecretStarted (RemoveKeyValue key) st = Returned st1
      ∧ current_secret st1 = current_secret st
      ∧ current_hiddenKeys st1 = current_hiddenKeys st
      ∧ filter (λ e, is_put e)
          (run now client
             (editCurrentlyShownSecret currentPath (RemoveKeyValue key)) st).(trace)
        = [EvPut path payload].
Proof.
  intros Hl Hinh Habs.
  assert (optimized_away (RemoveKeyValue key) (current_secret st) = false)
    as Hopt.
  { simpl. apply negb_false_iff. unfold obj_in, inherited.
    rewrite (bool_decide_eq_true_2 _ Hinh). apply orb_true_r. }
  split; [done|].
  destruct (run_edit_persisted now client currentPath (RemoveKeyValue key) st
              Hl Hopt)
    as (s1 & st2 & Hred & _ & Hs1 & Hh1 & _ & Hrun).
  eexists (Some s1), _, _. split; [exact Hred|].
  split; [|split; [exact Hh1|]].
  - rewrite Hs1. simpl. by apply obj_delete_absent.
  - cbv zeta in Hrun. rewrite Hrun. by destruct (client_put client _ _).
Qed.

Lemma remove_of_inherited_name_is_sent_witness :
  ∃ st1 path payload,
    Reducers.editSecretStarted (RemoveKeyValue "toString")
      (sample_state [("user", VString "alice")] [] false)
    = Returned st1
    ∧ current_secret st1 = [("user", VString "alice")]
    ∧ filter (λ e, is_put e)
        (run "2022-03-02T08:30:00.000Z" (sample_client (inl sample_error) None)
           (editCurrentlyShownSecret sample_currentPath
              (RemoveKeyValue "toString"))
           (sample_state [("user", VString "alice")] [] false)).(trace)
      = [EvPut path payload].
Proof.
  destruct (remove_of_inherited_name_is_sent "2022-03-02T08:30:00.000Z"
              (sample_client (inl sample_error) None) sample_currentPath
              "toString" (sample_state [("user", VString "alice")] [] false))
    as (_ & st1 & path & payload & Hred & Hs & _ & Hput).
  - apply sample_state_loaded.
  - decide_by_computation.
  - decide_by_computation.
  - exists st1, path, payload. exact (conj Hred (conj Hs Hput)).
Defined.

(** X18.  On a record without a key ["__proto__"],
    [addOrOverwriteKeyValue] of the key ["__proto__"] is lost: the
    optimizations do not skip it, and the reducer leaves the record as
    it is, the assignment reaching the setter that objects inherit. *)
Theorem add_under_proto_is_lost (value : string) (st : State) :
  loaded st →
  "__proto__" ∉ obj_keys (current_secret st) →
  optimized_away (AddOrOverwriteKeyValue "__proto__" value) (current_secret st)
  = false
  ∧ ∃ st1,
      Reducers.editSecretStarted (AddOrOverwriteKeyValue "__proto__" value) st
      = Returned st1
      ∧ current_secret st1 = current_secret st
      ∧ current_hiddenKeys st1 = current_hiddenKeys st.
Proof.
  intros Hl Hp. split.
  - simpl. unfold obj_get. apply obj_lookup_None in Hp. by rewrite Hp.
  - destruct (editSecretStarted_loaded
                (AddOrOverwriteKeyValue "__proto__" value) st Hl)
      as (st1 & Hred & _ & Hs & Hh).
    exists st1. rewrite Hs, Hh. simpl. by rewrite obj_put_proto.
Qed.

Lemma add_under_proto_is_lost_witness :
  ∃ st1,
    Reducers.editSecretStarted (AddOrOverwriteKeyValue "__proto__" "x")
      (sample_state [("user", VString "alice")] [] false)
    = Returned st1
    ∧ current_secret st1 = [("user", VString "alice")].
Proof.
  destruct (add_under_proto_is_lost "x"
              (sample_state [("user", VString "alice")] [] false))
    as (_ & st1 & Hred & Hs & _).
  - apply sample_state_loaded.
  - decide_by_computation.
  - exists st1. exact (conj Hred Hs).
Defined.

(** X19.  Renaming, to a name other than ["__proto__"], leaves the
    record without an entry under ["__proto__"]: the refilling assigns
    every entry again and the assignment under that name is lost.  The
    entries under the other names that the rename does not name are as
    they were. *)
Theorem rename_drops_proto_entry (key newKey : string) (st : State) :
  loaded st →
  wf_obj (current_secret st) →
  newKey ≠ "__proto__" →
  ∃ st1,
    Reducers.editSecretStarted (RenameKey key newKey) st = Returned st1
    ∧ ("__proto__" ∉ obj_keys (current_secret st1))
    ∧ obj_delete_all [key; newKey] (current_secret st1)
      = obj_delete "__proto__" (obj_delete_all [key; newKey] (current_secret st)).
Proof.
  intros Hl Hwf Hne.
  destruct (editSecretStarted_loaded (RenameKey key newKey) st Hl)
    as (st1 & Hred & _ & Hs & _).
  exists st1. rewrite Hs. simpl. split; [done|]. split.
  - rewrite elem_of_obj_keys_renameKey. tauto.
  - by apply renameKey_other_entries_but_proto.
Qed.

Lemma rename_drops_proto_entry_witness :
  ∃ st1,
    Reducers.editSecretStarted (RenameKey "a" "b")
      (sample_state [("__proto__", VString "x"); ("a", VString "1")] [] false)
    = Returned st1
    ∧ "__proto__" ∉ obj_keys (current_secret st1).
Proof.
  destruct (rename_drops_proto_entry "a" "b"
              (sample_state [("__proto__", VString "x"); ("a", VString "1")]
                            [] false))
    as (st1 & Hred & Hp & _).
  - apply sample_state_loaded.
  - decide_by_computation.
  - decide_by_computation.
  - exists st1. exact (conj Hred Hp).
Defined.

(** * Properties of the scaffolding and of the log bar *)

(** ** The width ranges of [ScreenSize] *)

(** X14.  When the breakpoints are in increasing order, the label shown
    by [ScreenSize] is that of the interval of breakpoints the window
    width lies in: ["0-sm"] exactly below [sm], ["sm-md"] exactly from
    [sm] up to [md] excluded, and so on up to ["xl-∞"] exactly from
    [xl]. *)
Theorem range_is_the_interval (bp : Story.BreakpointsValues) (w : Z) :
  (bp.(Story.sm) ≤ bp.(Story.md))%Z →
  (bp.(Story.md) ≤ bp.(Story.lg))%Z →
  (bp.(Story.lg) ≤ bp.(Story.xl))%Z →
  (Story.range bp w = "0-sm" ↔ (w < bp.(Story.sm))%Z)
  ∧ (Story.range bp w = "sm-md" ↔ (bp.(Story.sm) ≤ w < bp.(Story.md))%Z)
  ∧ (Story.range bp w = "md-lg" ↔ (bp.(Story.md) ≤ w < bp.(Story.lg))%Z)
  ∧ (Story.range bp w = "lg-xl" ↔ (bp.(Story.lg) ≤ w < bp.(Story.xl))%Z)
  ∧ (Story.range bp w = "xl-∞" ↔ (bp.(Story.xl) ≤ w)%Z).
Proof.
  intros Hsm Hmd Hlg. unfold Story.range.
  destruct (Z.leb_spec (Story.xl bp) w);
    [|destruct (Z.leb_spec (Story.lg bp) w);
      [|destruct (Z.leb_spec (Story.md bp) w);
        [|destruct (Z.leb_spec (Story.sm bp) w)]]];
    repeat split; intros; first [ lia | done ].
Qed.

Lemma range_is_the_interval_witness :
  Story.range {| Story.sm := 600; Story.md := 960;
                 Story.lg := 1280; Story.xl := 1920 |} 1000
  = "md-lg".
Proof.
  apply (range_is_the_interval
           {| Story.sm := 600; Story.md := 960;
              Story.lg := 1280; Story.xl := 1920 |} 1000);
    simpl; lia.
Defined.

(** ** The arguments of a story *)

Lemma obj_lookup_obj_assign (target source : Secret) (k : string) :
  NoDup (obj_keys source) →
  obj_lookup k (Story.obj_assign target source)
  = match obj_lookup k source with
    | Some v => Some v
    | None => obj_lookup k target
    end.
Proof.
  unfold Story.obj_assign. revert target.
  induction source as [|[k1 v1] source IH]; intros target Hnd; [done|].
  apply NoDup_cons in Hnd as [Hk1 Hnd]. simpl in Hk1. simpl.
  rewrite IH by done. case_decide; subst.
  - apply obj_lookup_None in Hk1. rewrite Hk1. apply obj_lookup_set.
  - by rewrite obj_lookup_set_ne.
Qed.

(** X15.  In the arguments [getStory] gives a story, a prop overrides
    the default of the control of the same name, every other control
    keeps its default, and every prop is present with its value; so the
    five controls are always defined. *)
Theorem getStory_args_override (defaultContainerWidth : option Z)
    (props : Secret) (k : string) :
  NoDup (obj_keys props) →
  obj_lookup k (Story.getStory_args defaultContainerWidth props)
  = match obj_lookup k props with
    | Some v => Some v
    | None => obj_lookup k (Story.default_args defaultContainerWidth)
    end
  ∧ (k ∈ ["darkMode"; "containerWidth"; "targetWindowInnerWidth";
          "chromeFontSize"; "lng"] →
     k ∈ obj_keys (Story.getStory_args defaultContainerWidth props)).
Proof.
  intros Hnd.
  assert (obj_lookup k (Story.getStory_args defaultContainerWidth props)
          = match obj_lookup k props with
            | Some v => Some v
            | None => obj_lookup k (Story.default_args defaultContainerWidth)
            end) as Hlookup
    by by apply obj_lookup_obj_assign.
  split; [done|]. intros Hk. apply obj_lookup_is_Some. rewrite Hlookup.
  destruct (obj_lookup k props); [by eexists|].
  apply obj_lookup_is_Some. exact Hk.
Qed.

Lemma getStory_args_override_witness :
  obj_lookup "darkMode"
    (Story.getStory_args (Some 600%Z)
       [("isOpen", VBool true); ("darkMode", VBool true)])
  = Some (VBool true).
Proof.
  apply (getStory_args_override (Some 600%Z)
           [("isOpen", VBool true); ("darkMode", VBool true)] "darkMode").
  decide_by_computation.
Defined.

(** ** The last command in the header of the log bar *)

Lemma replace_continuations_cons (c c' : ascii) (rest : string) :
  ApiLogsBar.replace_continuations (String c (String c' rest))
  = if bool_decide (c = ApiLogsBar.backslash)
       && bool_decide (c' = ApiLogsBar.line_feed)
    then String " " (ApiLogsBar.replace_continuations rest)
    else String c (ApiLogsBar.replace_continuations (String c' rest)).
Proof. reflexivity. Qed.

Lemma has_continuation_cons (c c' : ascii) (rest : string) :
  ApiLogsBar.has_continuation (String c (String c' rest))
  = (bool_decide (c = ApiLogsBar.backslash)
     && bool_decide (c' = ApiLogsBar.line_feed))
    || ApiLogsBar.has_continuation (String c' rest).
Proof. reflexivity. Qed.

Lemma replace_continuations_facts (n : nat) (text : string) :
  (String.length text ≤ n)%nat →
  ApiLogsBar.has_continuation (ApiLogsBar.replace_continuations text) = false
  ∧ (∀ r, ApiLogsBar.replace_continuations text
          = String ApiLogsBar.line_feed r →
          ∃ r', text = String ApiLogsBar.line_feed r')
  ∧ (String.length (ApiLogsBar.replace_continuations text)
     ≤ String.length text)%nat
  ∧ (ApiLogsBar.has_continuation text = false →
     ApiLogsBar.replace_continuations text = text).
Proof.
  revert text. induction n as [|n IH]; intros text Hlen.
  { destruct text; simpl in Hlen; [|lia]. simpl. naive_solver. }
  destruct text as [|c [|c' rest]].
  - simpl. naive_solver.
  - simpl. repeat split; [|lia]. intros r [= -> _]. by eexists.
  - rewrite replace_continuations_cons, has_continuation_cons.
    destruct (bool_decide (c = ApiLogsBar.backslash)
              && bool_decide (c' = ApiLogsBar.line_feed)) eqn:Hpat.
    + destruct (IH rest) as (Hnone & _ & Hle & _).
      { simpl in Hlen. lia. }
      repeat split.
      * destruct (ApiLogsBar.replace_continuations rest) as [|d r] eqn:Hr;
          [done|]. rewrite has_continuation_cons. by rewrite Hnone.
      * intros r [=].
      * simpl in *. lia.
      * done.
    + destruct (IH (String c' rest)) as (Hnone & Hhead & Hle & Hsame).
      { simpl in Hlen. simpl. lia. }
      repeat split.
      * destruct (ApiLogsBar.replace_continuations (String c' rest))
          as [|d r] eqn:Hr; [done|].
        rewrite has_continuation_cons, Hnone, orb_false_r.
        apply andb_false_iff.
        destruct (decide (d = ApiLogsBar.line_feed)) as [->|Hd];
          [|right; by apply bool_decide_eq_false].
        destruct (Hhead r eq_refl) as [r' [= -> _]].
        rewrite andb_true_r in Hpat. left. exact Hpat.
      * intros r [= -> _]. by eexists.
      * simpl in *. lia.
      * rewrite orb_false_l. intros Hno. by rewrite Hsame.
Qed.

Example replace_continuations_example :
  ApiLogsBar.replace_continuations
    (String "v" (String "a" (String "u" (String "l" (String "t" (String " "
      (String ApiLogsBar.backslash (String ApiLogsBar.line_feed
        (String "k" (String "v" (String ApiLogsBar.backslash
          (String "n" EmptyString))))))))))))
  = String "v" (String "a" (String "u" (String "l" (String "t" (String " "
      (String " " (String "k" (String "v" (String ApiLogsBar.backslash
        (String "n" EmptyString)))))))))).
Proof. vm_compute; reflexivity. Qed.

(** X16.  The header of the log bar shows nothing for an empty history,
    and otherwise the last command with every backslash followed by a
    line feed replaced by a space: the text shown has no backslash
    followed by a line feed left, is not longer than the command, and
    is the command itself when the command has none. *)
Theorem lastTranslatedCmd_is_one_line (history : list ApiLogsBar.ApiLogEntry)
    (entry : ApiLogsBar.ApiLogEntry) :
  ApiLogsBar.lastTranslatedCmd [] = None
  ∧ ∃ shown,
      ApiLogsBar.lastTranslatedCmd (history ++ [entry]) = Some shown
      ∧ shown = ApiLogsBar.replace_continuations entry.(ApiLogsBar.cmd)
      ∧ ApiLogsBar.has_continuation shown = false
      ∧ (String.length shown ≤ String.length entry.(ApiLogsBar.cmd))%nat
      ∧ (ApiLogsBar.has_continuation entry.(ApiLogsBar.cmd) = false →
         shown = entry.(ApiLogsBar.cmd)).
Proof.
  split; [done|]. eexists. split.
  { unfold ApiLogsBar.lastTranslatedCmd. by rewrite last_snoc. }
  destruct (replace_continuations_facts
              (String.length (ApiLogsBar.cmd entry)) (ApiLogsBar.cmd entry))
    as (Hnone & _ & Hle & Hsame); [done|].
  done.
Qed.
